(** * mic-pitch: YIN pitch detection and the MicPitch pipeline

    A shallow embedding of [src/pitch.js] (computeRMS, detectPitchYIN) and of
    the [MicPitch] class (constructor, start, stop, getAverageFrequency,
    _emit, _loop/tick), followed by the properties proved about them.

    JavaScript numbers are IEEE 754 binary64 values.  They are modelled by
    [spec_float] with the Standard Library's specification of the binary64
    operations (round to nearest, ties to even), so that [NaN], the
    infinities, signed zeros and rounding behave as they do in the source. *)

From Stdlib Require Import String DecimalString ZArith List Bool Lia.
From Stdlib Require Import Floats.SpecFloat.
Import ListNotations.
Open Scope Z_scope.

(* ================================================================== *)
(** ** JavaScript numbers, typed arrays and completions                *)
(* ================================================================== *)

Module Js.

Definition number : Type := spec_float.

Definition prec : Z := 53.
Definition emax : Z := 1024.

Definition NaN : number := S754_nan.
Definition Infinity : number := S754_infinity false.

(** The double that an integer literal or an integer-valued counter denotes
    (exact for |z| < 2^53). *)
Definition of_Z (z : Z) : number := binary_normalize prec emax z 0 false.
Definition of_nat (n : nat) : number := of_Z (Z.of_nat n).

Definition add : number -> number -> number := SFadd prec emax.
Definition sub : number -> number -> number := SFsub prec emax.
Definition mul : number -> number -> number := SFmul prec emax.
Definition div : number -> number -> number := SFdiv prec emax.
Definition Math_sqrt : number -> number := SFsqrt prec emax.

(** Relational operators on numbers: every comparison with [NaN] is false. *)
Definition lt (a b : number) : bool := SFltb a b.
Definition le (a b : number) : bool := SFleb a b.
Definition gt (a b : number) : bool := SFltb b a.
Definition ge (a b : number) : bool := SFleb b a.
Definition strict_eq (a b : number) : bool := SFeqb a b.

Definition isNaN (x : number) : bool :=
  match x with S754_nan => true | _ => false end.

(** The global [isFinite] on a number. *)
Definition isFinite (x : number) : bool :=
  match x with
  | S754_nan | S754_infinity _ => false
  | _ => true
  end.

(** ToBoolean on a number: [0], [-0] and [NaN] are falsy. *)
Definition truthy (x : number) : bool :=
  match x with
  | S754_zero _ | S754_nan => false
  | _ => true
  end.

(** [Math.max] and [Math.min] on two numbers: [NaN] if either is [NaN];
    [+0] is larger than [-0]. *)
Definition Math_max (a b : number) : number :=
  if isNaN a || isNaN b then NaN
  else if lt a b then b
  else if lt b a then a
  else match a with S754_zero true => b | _ => a end.

Definition Math_min (a b : number) : number :=
  if isNaN a || isNaN b then NaN
  else if lt a b then a
  else if lt b a then b
  else match a with S754_zero false => b | _ => a end.

(** [Math.fround]: the value a [Float32Array] element holds after a store,
    read back as a double. *)
Definition fround (x : number) : number :=
  match x with
  | S754_finite s m e =>
      match binary_normalize 24 128 (cond_Zopp s (Zpos m)) e s with
      | S754_finite s' m' e' =>
          binary_normalize prec emax (cond_Zopp s' (Zpos m')) e' s'
      | y => y
      end
  | _ => x
  end.

(** *** Integral doubles

    [Math.floor] returns an integer-valued double, an infinity or [NaN].
    Such a value is kept as the integer it denotes: [Math.max], [Math.min],
    comparison and [+ 1] are then the integer operations (the sign of a zero
    is not observable through them). *)
Inductive integral : Type :=
| INaN
| IInf (neg : bool)
| IInt (z : Z).

Definition Math_floor (x : number) : integral :=
  match x with
  | S754_nan => INaN
  | S754_infinity s => IInf s
  | S754_zero _ => IInt 0
  | S754_finite s m e => IInt (Z.shiftl (cond_Zopp s (Zpos m)) e)
  end.

Definition Math_max_i (a b : integral) : integral :=
  match a, b with
  | INaN, _ | _, INaN => INaN
  | IInf false, _ | _, IInf false => IInf false
  | IInf true, x | x, IInf true => x
  | IInt x, IInt y => IInt (Z.max x y)
  end.

Definition Math_min_i (a b : integral) : integral :=
  match a, b with
  | INaN, _ | _, INaN => INaN
  | IInf true, _ | _, IInf true => IInf true
  | IInf false, x | x, IInf false => x
  | IInt x, IInt y => IInt (Z.min x y)
  end.

Definition icompare (a b : integral) : option comparison :=
  match a, b with
  | INaN, _ | _, INaN => None
  | IInf s1, IInf s2 =>
      Some (match s1, s2 with
            | true, false => Lt
            | false, true => Gt
            | _, _ => Eq
            end)
  | IInf s, IInt _ => Some (if s then Lt else Gt)
  | IInt _, IInf s => Some (if s then Gt else Lt)
  | IInt x, IInt y => Some (x ?= y)
  end.

Definition ilt (a b : integral) : bool :=
  match icompare a b with Some Lt => true | _ => false end.
Definition ige (a b : integral) : bool :=
  match icompare a b with Some (Gt | Eq) => true | _ => false end.

(** [x + 1] on an integral double, up to the rounding of integers beyond
    2^53, which does not change the sign. *)
Definition isucc (a : integral) : integral :=
  match a with
  | IInt z => IInt (z + 1)
  | _ => a
  end.

(** *** Completions *)

Inductive error : Type :=
| RangeError
| TypeError
| Error (message : string)
| DOMException (name : string).

Inductive completion (A : Type) : Type :=
| Normal (a : A)
| Throw (e : error).
Arguments Normal {A} a.
Arguments Throw {A} e.

(** *** Float32Array *)

Definition Float32Array : Type := list number.

(** [new Float32Array(length)] for a numeric [length]: ToIndex maps [NaN] to
    0 and raises a RangeError on a negative or too large length. *)
Definition new_Float32Array (length : integral) : completion Float32Array :=
  match length with
  | INaN => Normal []
  | IInf _ => Throw RangeError
  | IInt z =>
      if (z <? 0) || (2 ^ 53 - 1 <? z) then Throw RangeError
      else Normal (repeat (S754_zero false) (Z.to_nat z))
  end.

(** [a[i]] for an integer [i]; out of range the read is [undefined], which
    every numeric operator of the source converts to [NaN]. *)
Definition get (a : list number) (i : Z) : number :=
  if i <? 0 then NaN else nth (Z.to_nat i) a NaN.

Fixpoint update (a : list number) (n : nat) (v : number) : list number :=
  match a, n with
  | [], _ => []
  | _ :: rest, O => v :: rest
  | x :: rest, S n' => x :: update rest n' v
  end.

(** [a[i] = v] on a Float32Array: the value is rounded to binary32; a store
    out of range is ignored. *)
Definition set (a : Float32Array) (i : Z) (v : number) : Float32Array :=
  if i <? 0 then a else update a (Z.to_nat i) (fround v).

(** The values taken by [tau] in [for (tau = lo; tau <= hi; tau++)].  The
    loops of the source start at 1 or at [Math.max(2, _)], so [lo] is never
    negative infinity, and an infinite [hi] is refused by the allocation that
    precedes them. *)
Definition lags (lo hi : integral) : list Z :=
  match lo, hi with
  | IInt a, IInt b => map (fun k => a + Z.of_nat k) (seq 0 (Z.to_nat (b - a + 1)))
  | _, _ => []
  end.

Declare Scope js_scope.
Delimit Scope js_scope with js.
Infix "+" := add : js_scope.
Infix "-" := sub : js_scope.
Infix "*" := mul : js_scope.
Infix "/" := div : js_scope.
Infix "<" := lt : js_scope.
Infix "<=" := le : js_scope.
Infix ">" := gt : js_scope.
Infix ">=" := ge : js_scope.
Infix "===" := strict_eq (at level 70) : js_scope.
Notation "a !== b" := (negb (strict_eq a b)) (at level 70) : js_scope.

(** [o ?? d] *)
Definition nullish {A : Type} (o : option A) (d : A) : A :=
  match o with Some v => v | None => d end.

End Js.

(* ================================================================== *)
(** ** src/pitch.js                                                    *)
(* ================================================================== *)

Module Pitch.
Import Js.

(** [computeRMS(buffer)] *)
Definition computeRMS (buffer : list number) : number :=
  let sum := fold_left (fun sum v => (sum + v * v)%js) buffer (of_Z 0) in
  Math_sqrt (sum / of_nat (length buffer))%js.

Record YinOptions : Type := mkYinOptions {
  minFreq : option number;
  maxFreq : option number;
  threshold : option number
}.

Definition default_minFreq : number := of_Z 50.
Definition default_maxFreq : number := of_Z 2000.
Definition default_threshold : number := (of_Z 1 / of_Z 10)%js.

(** The options after defaulting (lines 20-22). *)
Definition minFreqOf (options : YinOptions) : number :=
  nullish (minFreq options) default_minFreq.
Definition maxFreqOf (options : YinOptions) : number :=
  nullish (maxFreq options) default_maxFreq.
Definition thresholdOf (options : YinOptions) : number :=
  nullish (threshold options) default_threshold.

(** Lag bounds (lines 27-28). *)
Definition tauMinOf (sampleRate maxFreq : number) : integral :=
  Math_max_i (IInt 2) (Math_floor (sampleRate / maxFreq)%js).

Definition tauMaxOf (bufSize : Z) (sampleRate minFreq : number) : integral :=
  Math_min_i (IInt (bufSize - 3)) (Math_floor (sampleRate / minFreq)%js).

(** The inner loop of the difference function (lines 36-40). *)
Definition difference (buffer : list number) (bufSize tau : Z) : number :=
  fold_left
    (fun sum i =>
       let diff := (get buffer i - get buffer (i + tau))%js in
       (sum + diff * diff)%js)
    (lags (IInt 0) (IInt (bufSize - tau - 1)))
    (of_Z 0).

(** [yin] after the difference loop (lines 33-42). *)
Definition differenceLoop (buffer : list number) (bufSize : Z)
    (tauMax : integral) (yin : Float32Array) : Float32Array :=
  fold_left
    (fun yin tau => set yin tau (difference buffer bufSize tau))
    (lags (IInt 1) tauMax)
    (set yin 0 (of_Z 1)).

(** [yin] after the CMND loop (lines 45-50). *)
Definition cmndLoop (tauMax : integral) (yin : Float32Array) : Float32Array :=
  let '(_, yin') :=
    fold_left
      (fun '(runningSum, yin) tau =>
         let runningSum := (runningSum + get yin tau)%js in
         (runningSum,
          set yin tau
            ((get yin tau * of_Z tau)
             / (if truthy runningSum then runningSum else of_Z 1))%js))
      (lags (IInt 1) tauMax)
      (of_Z 0, yin) in
  set yin' 0 (of_Z 1).

(** The inner [while] of the threshold search (lines 57-59): [rest] holds
    the lags after [tau] up to [tauMax]. *)
Fixpoint walkRight (yin : Float32Array) (tau : Z) (rest : list Z) : Z :=
  match rest with
  | next :: rest' =>
      if (get yin next < get yin tau)%js then walkRight yin next rest' else tau
  | [] => tau
  end.

(** First minimum under the threshold (lines 53-63); [-1] when none. *)
Fixpoint thresholdSearch (yin : Float32Array) (threshold : number)
    (taus : list Z) : Z :=
  match taus with
  | [] => -1
  | tau :: rest =>
      if (get yin tau < threshold)%js then walkRight yin tau rest
      else thresholdSearch yin threshold rest
  end.

(** Fallback to the global minimum (lines 66-72); [-1] when no lag was
    selected. *)
Definition fallbackSearch (yin : Float32Array) (taus : list Z) : Z :=
  snd (fold_left
         (fun '(minVal, tauEstimate) tau =>
            if (get yin tau < minVal)%js then (get yin tau, tau)
            else (minVal, tauEstimate))
         taus
         (Infinity, -1)).

(** The body of the interpolation branch (lines 79-85). *)
Definition refinedLag (yin : Float32Array) (tauEstimate : Z) : number :=
  let a := get yin (tauEstimate - 1) in
  let b := get yin tauEstimate in
  let c := get yin (tauEstimate + 1) in
  let denom := (of_Z 2 * (of_Z 2 * b - a - c))%js in
  if (denom !== of_Z 0)%js then (of_Z tauEstimate + (c - a) / denom)%js
  else of_Z tauEstimate.

(** Parabolic interpolation (lines 77-86): the value of [betterTau]. *)
Definition parabolic (yin : Float32Array) (tauEstimate : Z)
    (tauMax : integral) : number :=
  if (1 <? tauEstimate) && ilt (IInt tauEstimate) tauMax then
    refinedLag yin tauEstimate
  else of_Z tauEstimate.

(** The final guards (lines 88-91). *)
Definition finish (sampleRate betterTau minFreq maxFreq : number)
    : option number :=
  let freq := (sampleRate / betterTau)%js in
  if negb (isFinite freq) || (freq <= of_Z 0)%js then None
  else if (freq < minFreq)%js || (freq > maxFreq)%js then None
  else Some freq.

(** The CMND array the searches run on. *)
Definition cmndArray (buffer : list number) (tauMax : integral)
    (yin : Float32Array) : Float32Array :=
  cmndLoop tauMax (differenceLoop buffer (Z.of_nat (length buffer)) tauMax yin).

(** The candidate lag after both searches; [None] is the [return null] of
    line 73. *)
Definition candidate (yin : Float32Array) (threshold : number)
    (tauMin tauMax : integral) : option Z :=
  let tauEstimate := thresholdSearch yin threshold (lags tauMin tauMax) in
  if tauEstimate =? -1 then
    let tauEstimate := fallbackSearch yin (lags tauMin tauMax) in
    if tauEstimate =? -1 then None else Some tauEstimate
  else Some tauEstimate.

(** [detectPitchYIN(buffer, sampleRate, options)] *)
Definition detectPitchYIN (buffer : list number) (sampleRate : number)
    (options : YinOptions) : completion (option number) :=
  let minFreq := minFreqOf options in
  let maxFreq := maxFreqOf options in
  let threshold := thresholdOf options in
  let bufSize := Z.of_nat (length buffer) in
  if bufSize <? 512 then Normal None
  else
    let tauMin := tauMinOf sampleRate maxFreq in
    let tauMax := tauMaxOf bufSize sampleRate minFreq in
    if ige tauMin tauMax then Normal None
    else
      match new_Float32Array (isucc tauMax) with
      | Throw e => Throw e
      | Normal yin0 =>
          let yin := cmndArray buffer tauMax yin0 in
          match candidate yin threshold tauMin tauMax with
          | None => Normal None
          | Some tauEstimate =>
              let betterTau := parabolic yin tauEstimate tauMax in
              Normal (finish sampleRate betterTau minFreq maxFreq)
          end
      end.

End Pitch.

(* ================================================================== *)
(** ** The MicPitch class                                              *)
(* ================================================================== *)

Module Mic.
Import Js.

(** The merged option object [this.options]. *)
Record Options : Type := mkOptions {
  minFreq : number;
  maxFreq : number;
  threshold : number;
  fftSize : number;
  updateIntervalMs : number;
  smoothing : number;
  averageSeconds : number;
  minRms : number;
  deviceId : option string
}.

(** The [options] argument of the constructor: every key may be missing. *)
Record OptionsArg : Type := mkOptionsArg {
  arg_minFreq : option number;
  arg_maxFreq : option number;
  arg_threshold : option number;
  arg_fftSize : option number;
  arg_updateIntervalMs : option number;
  arg_smoothing : option number;
  arg_averageSeconds : option number;
  arg_minRms : option number;
  arg_deviceId : option string
}.

Definition no_options : OptionsArg :=
  mkOptionsArg None None None None None None None None None.

(** [{ minFreq: 50, ..., minRms: 0.01, ...options }] *)
Definition spread (o : OptionsArg) : Options :=
  {| minFreq := nullish (arg_minFreq o) (of_Z 50);
     maxFreq := nullish (arg_maxFreq o) (of_Z 2000);
     threshold := nullish (arg_threshold o) (of_Z 1 / of_Z 10)%js;
     fftSize := nullish (arg_fftSize o) (of_Z 2048);
     updateIntervalMs := nullish (arg_updateIntervalMs o) (of_Z 50);
     smoothing := nullish (arg_smoothing o) (of_Z 1 / of_Z 4)%js;
     averageSeconds := nullish (arg_averageSeconds o) (of_Z 1);
     minRms := nullish (arg_minRms o) (of_Z 1 / of_Z 100)%js;
     deviceId := arg_deviceId o |}.

(** An entry [{ t, f }] of [this._history]. *)
Record HistoryItem : Type := mkItem {
  t : number;
  f : option number
}.

(** Browser objects (AudioContext, AnalyserNode, MediaStream, source node,
    interval timer) are identified by handles. *)
Definition handle : Type := nat.

(** What the instance does to the browser, most recent first. *)
Inductive effect : Type :=
| NewAudioContext (ctx : handle)
| CreateAnalyser (ctx analyser : handle)
| GetUserMedia (device : option string) (stream : handle)
| Disconnect (source : handle)
| StopTracks (stream : handle)
| CreateMediaStreamSource (ctx stream source : handle)
| Connect (source analyser : handle)
| CloseContext (ctx : handle)
| SetInterval (timer : handle) (period : number)
| ClearInterval (timer : handle).

Record Browser : Type := mkBrowser {
  hasAudioContext : bool;
  grantsMedia : option string -> bool;
  nextHandle : handle;
  effects : list effect
}.

Definition fresh (w : Browser) : handle * Browser :=
  (nextHandle w,
   mkBrowser (hasAudioContext w) (grantsMedia w) (S (nextHandle w)) (effects w)).

Definition perform (e : effect) (w : Browser) : Browser :=
  mkBrowser (hasAudioContext w) (grantsMedia w) (nextHandle w) (e :: effects w).

(** The interval timers that are installed after the effects of a log:
    set and not cleared since. *)
Fixpoint activeTimers (log : list effect) : list handle :=
  match log with
  | [] => []
  | SetInterval timer _ :: earlier => timer :: activeTimers earlier
  | ClearInterval timer :: earlier =>
      remove Nat.eq_dec timer (activeTimers earlier)
  | _ :: earlier => activeTimers earlier
  end.

(** The conversion of a number to the [unsigned long] that
    [AnalyserNode.fftSize] holds, and the sizes the setter accepts. *)
Definition toUint32 (x : number) : Z :=
  match x with
  | S754_finite s m e => (cond_Zopp s (Z.shiftl (Zpos m) e)) mod 2 ^ 32
  | _ => 0
  end.

Definition validFftSize (n : Z) : bool :=
  existsb (Z.eqb n) [32; 64; 128; 256; 512; 1024; 2048; 4096; 8192; 16384; 32768].

(** The [deviceId] constraint of [_createStream()]:
    [this._deviceId ? { exact: this._deviceId } : undefined]. *)
Definition deviceConstraint (deviceId : option string) : option string :=
  match deviceId with
  | Some EmptyString => None
  | d => d
  end.

Section WithListeners.

(** The state that subscriber callbacks act on. *)
Variable U : Type.

(** The result of calling a callback: it returned, or it raised; either way
    it may have changed the application state before. *)
Inductive outcome : Type :=
| Returned (u : U)
| Raised (u : U).

Definition after (o : outcome) : U :=
  match o with Returned u | Raised u => u end.

(** A subscriber; [lid] stands for the identity of the function object. *)
Record listener : Type := mkListener {
  lid : nat;
  call : option number -> U -> outcome
}.

Record MicPitch : Type := mkMicPitch {
  options : Options;
  _ctx : option handle;
  _stream : option handle;
  _source : option handle;
  _analyser : option handle;
  _buffer : option Float32Array;
  _timer : option handle;
  _listeners : list listener;
  _emaFreq : option number;
  _history : list HistoryItem;
  _running : bool;
  _deviceId : option string
}.

(** [new MicPitch(options)] *)
Definition constructor (opts : OptionsArg) : completion MicPitch :=
  let options := spread opts in
  Normal {| options := options;
            _ctx := None;
            _stream := None;
            _source := None;
            _analyser := None;
            _buffer := None;
            _timer := None;
            _listeners := [];
            _emaFreq := None;
            _history := [];
            _running := false;
            _deviceId := deviceId options |}.

(** [get running()] *)
Definition running (self : MicPitch) : bool := _running self.

(** The part of the instance the pipeline computes with: smoothed value,
    history, running flag and configuration. *)
Definition pipelineState (self : MicPitch)
    : option number * list HistoryItem * bool * Options :=
  (_emaFreq self, _history self, _running self, options self).

(** [onFrequency(cb)] and [offFrequency(cb)]: [_listeners] is a Set, kept
    in insertion order. *)
Definition has_listener (cb : listener) (ls : list listener) : bool :=
  existsb (fun l => Nat.eqb (lid l) (lid cb)) ls.

Definition with_listeners (self : MicPitch) (ls : list listener) : MicPitch :=
  mkMicPitch (options self) (_ctx self) (_stream self) (_source self)
    (_analyser self) (_buffer self) (_timer self) ls (_emaFreq self)
    (_history self) (_running self) (_deviceId self).

Definition onFrequency (self : MicPitch) (cb : listener) : MicPitch :=
  if has_listener cb (_listeners self) then self
  else with_listeners self (_listeners self ++ [cb]).

Definition offFrequency (self : MicPitch) (cb : listener) : MicPitch :=
  with_listeners self
    (filter (fun l => negb (Nat.eqb (lid l) (lid cb))) (_listeners self)).

(** [_replaceStream()], awaited to completion; the rejection of
    [getUserMedia] in [_createStream()] is raised before anything changes. *)
Definition _replaceStream (self : MicPitch) (w : Browser)
    : Browser * MicPitch * completion unit :=
  if negb (grantsMedia w (deviceConstraint (_deviceId self))) then
    (w, self, Throw (DOMException "NotAllowedError"))
  else
    let '(newStream, w) := fresh w in
    let w := perform (GetUserMedia (deviceConstraint (_deviceId self)) newStream) w in
    let w := match _source self with
             | Some s => perform (Disconnect s) w
             | None => w
             end in
    let w := match _stream self with
             | Some s => perform (StopTracks s) w
             | None => w
             end in
    match _ctx self, _analyser self with
    | Some ctx, Some analyser =>
        let '(source, w) := fresh w in
        let w := perform (CreateMediaStreamSource ctx newStream source) w in
        let w := perform (Connect source analyser) w in
        (w,
         mkMicPitch (options self) (_ctx self) (Some newStream) (Some source)
           (_analyser self) (_buffer self) (_timer self) (_listeners self)
           (_emaFreq self) (_history self) (_running self) (_deviceId self),
         Normal tt)
    | _, _ =>
        (w,
         mkMicPitch (options self) (_ctx self) (Some newStream) (_source self)
           (_analyser self) (_buffer self) (_timer self) (_listeners self)
           (_emaFreq self) (_history self) (_running self) (_deviceId self),
         Normal tt)
    end.

(** [_loop()]: installs the interval timer that runs [tick]. *)
Definition _loop (self : MicPitch) (w : Browser) : Browser * MicPitch :=
  let '(timer, w) := fresh w in
  let w := perform
             (SetInterval timer (Math_max (of_Z 10) (updateIntervalMs (options self))))
             w in
  (w,
   mkMicPitch (options self) (_ctx self) (_stream self) (_source self)
     (_analyser self) (_buffer self) (Some timer) (_listeners self)
     (_emaFreq self) (_history self) (_running self) (_deviceId self)).

(** [start()], awaited to completion. *)
Definition start (self : MicPitch) (w : Browser)
    : Browser * MicPitch * completion unit :=
  if _running self then (w, self, Normal tt)
  else if negb (hasAudioContext w) then
    (w, self, Throw (Error "Web Audio API not available"))
  else
    let '(ctx, w) := fresh w in
    let w := perform (NewAudioContext ctx) w in
    let '(analyser, w) := fresh w in
    let w := perform (CreateAnalyser ctx analyser) w in
    let self1 :=
      mkMicPitch (options self) (Some ctx) (_stream self) (_source self)
        (Some analyser) (_buffer self) (_timer self) (_listeners self)
        (_emaFreq self) (_history self) (_running self) (_deviceId self) in
    let size := toUint32 (fftSize (options self)) in
    if negb (validFftSize size) then
      (w, self1, Throw (DOMException "IndexSizeError"))
    else
      let self2 :=
        mkMicPitch (options self1) (_ctx self1) (_stream self1) (_source self1)
          (_analyser self1) (Some (repeat (S754_zero false) (Z.to_nat size)))
          (_timer self1) (_listeners self1) (_emaFreq self1) (_history self1)
          (_running self1) (_deviceId self1) in
      match _replaceStream self2 w with
      | (w, self3, Throw e) => (w, self3, Throw e)
      | (w, self3, Normal _) =>
          let self4 :=
            mkMicPitch (options self3) (_ctx self3) (_stream self3)
              (_source self3) (_analyser self3) (_buffer self3) (_timer self3)
              (_listeners self3) (_emaFreq self3) (_history self3) true
              (_deviceId self3) in
          let '(w, self5) := _loop self4 w in
          (w, self5, Normal tt)
      end.

(** [stop()] *)
Definition stop (self : MicPitch) (w : Browser) : Browser * MicPitch :=
  if negb (_running self) then (w, self)
  else
    let w := match _timer self with
             | Some timer => perform (ClearInterval timer) w
             | None => w
             end in
    let w := match _source self with
             | Some s => perform (Disconnect s) w
             | None => w
             end in
    let w := match _stream self with
             | Some s => perform (StopTracks s) w
             | None => w
             end in
    let w := match _ctx self with
             | Some c => perform (CloseContext c) w
             | None => w
             end in
    (w,
     mkMicPitch (options self) None None (_source self) None None None
       (_listeners self) None [] false (_deviceId self)).

(** The backward scan of [getAverageFrequency] (lines 168-177); [items] is
    the history from the most recent entry backward. *)
Fixpoint scan (cutoff : number) (items : list HistoryItem)
    (sum : number) (count : nat) : number * nat :=
  match items with
  | [] => (sum, count)
  | item :: rest =>
      if (t item < cutoff)%js then (sum, count)
      else
        match f item with
        | Some v =>
            if isFinite v then scan cutoff rest (sum + v)%js (S count)
            else scan cutoff rest sum count
        | None => scan cutoff rest sum count
        end
  end.

(** [getAverageFrequency(seconds)]; [now] is what [performance.now()]
    returns.  [count] never exceeds the length of an array, so it is exact
    as a double. *)
Definition getAverageFrequency (self : MicPitch) (seconds : option number)
    (now : number) : option number :=
  let seconds := nullish seconds (averageSeconds (options self)) in
  let cutoff := (now - seconds * of_Z 1000)%js in
  let '(sum, count) := scan cutoff (rev (_history self)) (of_Z 0) 0%nat in
  match count with
  | O => None
  | _ => Some (sum / of_nat count)%js
  end.

(** [_emit(freq)]: [try { cb(freq); } catch {}] for each listener. *)
Fixpoint emit_all (ls : list listener) (freq : option number) (u : U)
    : completion U :=
  match ls with
  | [] => Normal u
  | cb :: rest =>
      match call cb freq u with
      | Returned u' => emit_all rest freq u'
      | Raised u' => emit_all rest freq u'
      end
  end.

Definition _emit (self : MicPitch) (freq : option number) (u : U)
    : completion U :=
  emit_all (_listeners self) freq u.

(** The exponential smoothing of [tick] (lines 204-216): the new value of
    [this._emaFreq]. *)
Definition smooth (emaFreq freq : option number) (smoothing : number)
    : option number :=
  match freq with
  | Some freq =>
      match emaFreq with
      | None => Some freq
      | Some ema =>
          if (smoothing > of_Z 0)%js then
            let alpha := Math_min (Math_max smoothing (of_Z 0)) (of_Z 1) in
            Some (alpha * freq + (of_Z 1 - alpha) * ema)%js
          else Some freq
      end
  | None => None
  end.

(** The trimming loop of [tick] (lines 223-225). *)
Fixpoint trim (cutoff : number) (history : list HistoryItem)
    : list HistoryItem :=
  match history with
  | [] => []
  | item :: rest =>
      if (t item < cutoff)%js then trim cutoff rest else history
  end.

(** The cutoff of the trimming loop (line 222). *)
Definition trimCutoff (self : MicPitch) (now : number) : number :=
  (now - Math_max (of_Z 1) (averageSeconds (options self)) * of_Z 1000
   - of_Z 200)%js.

(** What one run of [tick] reads from the browser: the samples that
    [getFloatTimeDomainData] delivers, [this._ctx.sampleRate] (reading it
    from a null [_ctx] is a TypeError) and [performance.now()]. *)
Record TickInput : Type := mkTickInput {
  samples : list number;
  sampleRate : number;
  now : number
}.

(** [getFloatTimeDomainData(buffer)] overwrites the buffer in place. *)
Definition fill (buffer : Float32Array) (data : list number) : Float32Array :=
  firstn (length buffer) data ++ skipn (length data) buffer.

(** The raw estimate of a cycle (lines 196-201). *)
Definition rawEstimate (self : MicPitch) (buffer : Float32Array)
    (sr : number) : completion (option number) :=
  let rms := Pitch.computeRMS buffer in
  if (rms >= minRms (options self))%js then
    Pitch.detectPitchYIN buffer sr
      (Pitch.mkYinOptions (Some (minFreq (options self)))
         (Some (maxFreq (options self))) (Some (threshold (options self))))
  else Normal None.

(** The state after the smoothing, the push and the trimming of a cycle
    whose raw estimate is [freq] (lines 204-225). *)
Definition record (self : MicPitch) (buffer : Float32Array)
    (freq : option number) (now : number) : MicPitch :=
  let emaFreq := smooth (_emaFreq self) freq (smoothing (options self)) in
  let history := _history self ++ [mkItem now emaFreq] in
  mkMicPitch (options self) (_ctx self) (_stream self) (_source self)
    (_analyser self) (Some buffer) (_timer self) (_listeners self) emaFreq
    (trim (trimCutoff self now) history) (_running self) (_deviceId self).

(** One run of the [tick] closure installed by [_loop]. *)
Definition tick (self : MicPitch) (input : TickInput) (u : U)
    : MicPitch * U * completion unit :=
  match _analyser self, _buffer self with
  | Some _, Some buffer =>
      let buffer := fill buffer (samples input) in
      let self1 :=
        mkMicPitch (options self) (_ctx self) (_stream self) (_source self)
          (_analyser self) (Some buffer) (_timer self) (_listeners self)
          (_emaFreq self) (_history self) (_running self) (_deviceId self) in
      match _ctx self with
      | None => (self1, u, Throw TypeError)
      | Some _ =>
          match rawEstimate self buffer (sampleRate input) with
          | Throw e => (self1, u, Throw e)
          | Normal freq =>
              let self2 := record self buffer freq (now input) in
              match _emit self2 (_emaFreq self2) u with
              | Normal u' => (self2, u', Normal tt)
              | Throw e => (self2, u, Throw e)
              end
          end
      end
  | _, _ => (self, u, Normal tt)
  end.

(** [setDevice(deviceId)], awaited to completion:
    [this._deviceId = deviceId || null], then a stream swap if running. *)
Definition setDevice (self : MicPitch) (w : Browser) (deviceId : option string)
    : Browser * MicPitch * completion unit :=
  let self1 :=
    mkMicPitch (options self) (_ctx self) (_stream self) (_source self)
      (_analyser self) (_buffer self) (_timer self) (_listeners self)
      (_emaFreq self) (_history self) (_running self)
      (deviceConstraint deviceId) in
  if _running self1 then _replaceStream self1 w else (w, self1, Normal tt).

(** *** Runs of an instance

    What can happen to an instance: a client calls a method, the interval
    timer runs [tick], or the browser changes what it offers.  The timer
    runs [tick] only while it is installed, that is between [_loop] and the
    [clearInterval] of [stop]. *)
Inductive action : Type :=
| Start
| Stop
| Tick (input : TickInput)
| OnFrequency (cb : listener)
| OffFrequency (cb : listener)
| SetDevice (deviceId : option string)
| Environment (hasAudioContext : bool) (grantsMedia : option string -> bool).

Definition enabled (a : action) (self : MicPitch) : bool :=
  match a with
  | Tick _ => match _timer self with Some _ => true | None => false end
  | _ => true
  end.

Definition exec (a : action) (s : Browser * MicPitch * U)
    : Browser * MicPitch * U :=
  let '(w, self, u) := s in
  match a with
  | Start => let '(w', self', _) := start self w in (w', self', u)
  | Stop => let '(w', self') := stop self w in (w', self', u)
  | Tick input => let '(self', u', _) := tick self input u in (w, self', u')
  | OnFrequency cb => (w, onFrequency self cb, u)
  | OffFrequency cb => (w, offFrequency self cb, u)
  | SetDevice d => let '(w', self', _) := setDevice self w d in (w', self', u)
  | Environment audio grants =>
      (mkBrowser audio grants (nextHandle w) (effects w), self, u)
  end.

(** What holds of an instance throughout a run: a stopped instance has no
    smoothed value, no history and no timer; a running one has its timer,
    context, analyser and a work buffer of [fftSize] samples; and no
    listener is registered twice. *)
Definition consistent (self : MicPitch) : Prop :=
  (_running self = false ->
   _emaFreq self = None /\ _history self = [] /\ _timer self = None) /\
  (_running self = true ->
   exists ctx analyser timer buffer,
     _ctx self = Some ctx /\ _analyser self = Some analyser /\
     _timer self = Some timer /\ _buffer self = Some buffer /\
     Z.of_nat (length buffer) = toUint32 (fftSize (options self)) /\
     validFftSize (toUint32 (fftSize (options self))) = true) /\
  NoDup (map lid (_listeners self)).

(** The states an instance can be in: constructed, then driven by enabled
    actions. *)
Inductive reachable : Browser * MicPitch * U -> Prop :=
| reach_new opts w u self :
    constructor opts = Normal self -> reachable (w, self, u)
| reach_step a w self u :
    reachable (w, self, u) -> enabled a self = true ->
    reachable (exec a (w, self, u)).

End WithListeners.

Arguments Returned {U} u.
Arguments Raised {U} u.
Arguments after {U} o.
Arguments mkListener {U} lid call.
Arguments lid {U} l.
Arguments call {U} l _ _.
Arguments constructor {U} opts.
Arguments mkMicPitch {U}.
Arguments options {U}.
Arguments _ctx {U}.
Arguments _stream {U}.
Arguments _source {U}.
Arguments _analyser {U}.
Arguments _buffer {U}.
Arguments _timer {U}.
Arguments _listeners {U}.
Arguments _emaFreq {U}.
Arguments _history {U}.
Arguments _running {U}.
Arguments _deviceId {U}.
Arguments running {U}.
Arguments pipelineState {U}.
Arguments has_listener {U}.
Arguments with_listeners {U}.
Arguments onFrequency {U}.
Arguments offFrequency {U}.
Arguments _replaceStream {U}.
Arguments _loop {U}.
Arguments start {U}.
Arguments stop {U}.
Arguments getAverageFrequency {U}.
Arguments emit_all {U}.
Arguments _emit {U}.
Arguments trimCutoff {U}.
Arguments rawEstimate {U}.
Arguments record {U}.
Arguments tick {U}.
Arguments setDevice {U}.
Arguments Start {U}.
Arguments Stop {U}.
Arguments Tick {U}.
Arguments OnFrequency {U}.
Arguments OffFrequency {U}.
Arguments SetDevice {U}.
Arguments Environment {U}.
Arguments enabled {U}.
Arguments exec {U}.
Arguments reachable {U}.
Arguments consistent {U}.

End Mic.

(* ================================================================== *)
(** ** listInputDevices                                                *)
(* ================================================================== *)

Module Devices.
Import Js.

(** A [MediaDeviceInfo] as [enumerateDevices()] returns it. *)
Module MediaDeviceInfo.
Record t : Type := make {
  kind : string;
  deviceId : string;
  label : string;
  groupId : string
}.
End MediaDeviceInfo.

(** An entry of the result of [listInputDevices()]. *)
Record InputDevice : Type := mkInputDevice {
  deviceId : string;
  label : string;
  groupId : string
}.

(** The template literal [`Microphone ${i + 1}`]. *)
Definition defaultLabel (i : nat) : string :=
  ("Microphone " ++ NilEmpty.string_of_uint (Nat.to_uint (i + 1)))%string.

(** [d.label || `Microphone ${i + 1}`]: the empty string is falsy. *)
Definition labelOr (label : string) (i : nat) : string :=
  match label with
  | EmptyString => defaultLabel i
  | _ => label
  end.

(** [listInputDevices()], awaited to completion.  [mediaDevices] is [None]
    when [navigator.mediaDevices?.enumerateDevices] is missing, and
    otherwise holds what the call resolves or rejects with. *)
Definition listInputDevices
    (mediaDevices : option (completion (list MediaDeviceInfo.t)))
    : completion (list InputDevice) :=
  match mediaDevices with
  | None => Normal []
  | Some (Throw e) => Throw e
  | Some (Normal devices) =>
      let inputs :=
        filter (fun d => String.eqb (MediaDeviceInfo.kind d) "audioinput")
          devices in
      Normal
        (map (fun '(i, d) =>
                mkInputDevice (MediaDeviceInfo.deviceId d)
                  (labelOr (MediaDeviceInfo.label d) i)
                  (MediaDeviceInfo.groupId d))
           (combine (seq 0 (length inputs)) inputs))
  end.

End Devices.

(* ================================================================== *)
(** ** The specification's own formulations                            *)
(* ================================================================== *)

(** Definitions written after the words of the specification, to be
    compared with the functions translated from the source. *)
Module Spec.
Import Js.

(** [clamp(alpha, 0, 1)] of the smoothing rule. *)
Definition clamp (x lo hi : number) : number := Math_min (Math_max x lo) hi.

(** "Insertion order = chronological order": timestamps are numbers and
    non-decreasing along the history. *)
Fixpoint chronological (history : list Mic.HistoryItem) : bool :=
  match history with
  | [] => true
  | a :: rest =>
      negb (isNaN (Mic.t a))
      && match rest with
         | [] => true
         | b :: _ => (Mic.t a <= Mic.t b)%js
         end
      && chronological rest
  end.

(** A present value: not null and finite. *)
Definition present (v : option number) : bool :=
  match v with
  | Some x => isFinite x
  | None => false
  end.

(** The present values whose timestamp is at or after the cutoff, in
    history order. *)
Fixpoint qualifying (cutoff : number) (history : list Mic.HistoryItem)
    : list number :=
  match history with
  | [] => []
  | item :: rest =>
      match Mic.f item with
      | Some v =>
          if (Mic.t item >= cutoff)%js && isFinite v
          then v :: qualifying cutoff rest
          else qualifying cutoff rest
      | None => qualifying cutoff rest
      end
  end.

(** The arithmetic mean of a list of values, added up in list order;
    absent for no value. *)
Definition mean (values : list number) : option number :=
  match values with
  | [] => None
  | _ => Some (fold_left add values (of_Z 0) / of_nat (length values))%js
  end.

(** [average(nowTimestamp, windowSeconds)]: the mean of the qualifying
    values, taken from the most recent one backward. *)
Definition average (history : list Mic.HistoryItem)
    (nowTimestamp windowSeconds : number) : option number :=
  mean (rev (qualifying (nowTimestamp - windowSeconds * of_Z 1000)%js history)).

(** The eviction cutoff:
    [now - max(1, configuredWindowSeconds) * 1000 - 200]. *)
Definition evictionCutoff (now configuredWindowSeconds : number) : number :=
  (now - Math_max (of_Z 1) configuredWindowSeconds * of_Z 1000 - of_Z 200)%js.

End Spec.

(* ================================================================== *)
(** ** Sample inputs                                                   *)
(* ================================================================== *)

Module Samples.
Import Js.

(** 512 samples alternating 0, 1, 0, 1, ... *)
Definition alternating : list number :=
  map (fun k => of_Z (Z.of_nat (Nat.modulo k 2))) (seq 0 512).

(** 512 samples of a sawtooth of period 20: 0, 1, ..., 19, 0, 1, ... *)
Definition sawtooth20 : list number :=
  map (fun k => of_Z (Z.of_nat (Nat.modulo k 20))) (seq 0 512).

Definition no_yin_options : Pitch.YinOptions :=
  Pitch.mkYinOptions None None None.

(** The CMND array [detectPitchYIN] computes for a buffer of 512 samples at
    1000 Hz with the default options (lags 2 to 20). *)
Definition cmnd_of (buffer : list number) : Float32Array :=
  Pitch.cmndArray buffer (IInt 20) (repeat (S754_zero false) 21).

(** The values of that array for [alternating] and for [sawtooth20]. *)
Definition cmnd_alternating : Float32Array :=
  Eval vm_compute in cmnd_of alternating.

Definition cmnd_sawtooth20 : Float32Array :=
  Eval vm_compute in cmnd_of sawtooth20.

(** History entries at 0, 100, ..., 900 ms: all 440 Hz, or 440 Hz
    alternating with absent values. *)
Definition history_440 : list Mic.HistoryItem :=
  map (fun k => Mic.mkItem (of_Z (100 * Z.of_nat k)) (Some (of_Z 440)))
    (seq 0 10).

Definition history_alternating : list Mic.HistoryItem :=
  map (fun k => Mic.mkItem (of_Z (100 * Z.of_nat k))
                  (if Nat.even k then Some (of_Z 440) else None))
    (seq 0 10).

(** A started instance with the default options, a given smoothed value
    and a given history. *)
Definition pipeline (emaFreq : option number)
    (history : list Mic.HistoryItem) : Mic.MicPitch unit :=
  Mic.mkMicPitch (Mic.spread Mic.no_options) (Some 0%nat) (Some 2%nat)
    (Some 3%nat) (Some 1%nat) (Some (repeat (S754_zero false) 2048))
    (Some 4%nat) [] emaFreq history true None.

(** A browser with Web Audio that grants every microphone request. *)
Definition browser : Mic.Browser :=
  Mic.mkBrowser true (fun _ => true) 0%nat [].

(** The same with a work buffer of [size] samples and the matching
    [fftSize] option. *)
Definition pipeline_of_size (size : Z) (emaFreq : option number)
    (history : list Mic.HistoryItem) : Mic.MicPitch unit :=
  Mic.mkMicPitch
    (Mic.spread
       (Mic.mkOptionsArg None None None (Some (of_Z size)) None None None
          None None))
    (Some 0%nat) (Some 2%nat) (Some 3%nat) (Some 1%nat)
    (Some (repeat (S754_zero false) (Z.to_nat size)))
    (Some 4%nat) [] emaFreq history true None.

(** A new instance with the default options. *)
Definition idle : Mic.MicPitch unit :=
  Mic.mkMicPitch (Mic.spread Mic.no_options) None None None None None None
    [] None [] false None.

(** The block [alternating] read at 1000 Hz, at time 0. *)
Definition alternating_at_0 : Mic.TickInput :=
  Mic.mkTickInput alternating (of_Z 1000) (of_Z 0).

(** Two subscribers that count their calls. *)
Definition counter (id : nat) : Mic.listener nat :=
  Mic.mkListener id (fun _ n => Mic.Returned (S n)).

(** A new instance with one counting subscriber. *)
Definition counting : Mic.MicPitch nat :=
  Mic.mkMicPitch (Mic.spread Mic.no_options) None None None None None None
    [counter 1] None [] false None.

(** What [enumerateDevices()] may resolve with: a camera, a labelled
    microphone, a speaker and an unlabelled microphone. *)
Definition some_devices : list Devices.MediaDeviceInfo.t :=
  [Devices.MediaDeviceInfo.make "videoinput" "cam0" "Camera" "g0";
   Devices.MediaDeviceInfo.make "audioinput" "mic0" "Built-in" "g0";
   Devices.MediaDeviceInfo.make "audiooutput" "spk0" "Speaker" "g1";
   Devices.MediaDeviceInfo.make "audioinput" "mic1" EmptyString "g2"].

(** A browser with Web Audio that refuses every microphone request. *)
Definition refusing_browser : Mic.Browser :=
  Mic.mkBrowser true (fun _ => false) 0%nat [].

(** A silent block of 2048 samples read at 44100 Hz, at time 1600 ms. *)
Definition silence_at_1600 : Mic.TickInput :=
  Mic.mkTickInput (repeat (S754_zero false) 2048) (of_Z 44100) (of_Z 1600).

End Samples.

(* ================================================================== *)
(** ** Facts about numbers                                             *)
(* ================================================================== *)

Section NumberFacts.
Import Js.

Lemma SFcompare_antisym (a b : number) :
  SFcompare b a = option_map CompOpp (SFcompare a b).
Proof.
  destruct a as [sa|sa| |sa ma ea], b as [sb|sb| |sb mb eb]; simpl;
    try destruct sa; try destruct sb; simpl; try reflexivity.
  - rewrite (Z.compare_antisym ea eb).
    destruct (ea ?= eb); simpl; try reflexivity.
    change (Pos.compare_cont Eq mb ma) with (Pos.compare mb ma).
    change (Pos.compare_cont Eq ma mb) with (Pos.compare ma mb).
    now rewrite (Pos.compare_antisym ma mb).
  - rewrite (Z.compare_antisym ea eb).
    destruct (ea ?= eb); simpl; try reflexivity.
    change (Pos.compare_cont Eq mb ma) with (Pos.compare mb ma).
    change (Pos.compare_cont Eq ma mb) with (Pos.compare ma mb).
    now rewrite (Pos.compare_antisym ma mb).
Qed.

Lemma SFcompare_none (a b : number) :
  SFcompare a b = None <-> isNaN a = true \/ isNaN b = true.
Proof.
  destruct a as [sa|sa| |sa ma ea], b as [sb|sb| |sb mb eb]; simpl;
    try destruct sa; try destruct sb; simpl; intuition congruence.
Qed.

Ltac cmp_cases :=
  repeat match goal with
  | H : context [Pos.compare_cont Eq ?a ?b] |- _ =>
      change (Pos.compare_cont Eq a b) with (Pos.compare a b) in H
  | |- context [Pos.compare_cont Eq ?a ?b] =>
      change (Pos.compare_cont Eq a b) with (Pos.compare a b)
  end;
  repeat match goal with
  | H : context [Z.compare ?a ?b] |- _ =>
      destruct (Z.compare_spec a b); subst
  | |- context [Z.compare ?a ?b] =>
      destruct (Z.compare_spec a b); subst
  | H : context [Pos.compare ?a ?b] |- _ =>
      destruct (Pos.compare_spec a b); subst
  | |- context [Pos.compare ?a ?b] =>
      destruct (Pos.compare_spec a b); subst
  end; simpl in *; try discriminate; try reflexivity; try lia.

(** [a <= b] and [b < c] give [a < c], also across zeros and infinities. *)
Lemma le_lt_trans (a b c : number) :
  le a b = true -> lt b c = true -> lt a c = true.
Proof.
  unfold le, lt, SFleb, SFltb.
  destruct a as [sa|sa| |sa ma ea], b as [sb|sb| |sb mb eb],
    c as [sc|sc| |sc mc ec]; simpl;
    try destruct sa; try destruct sb; try destruct sc; simpl;
    try discriminate; try reflexivity; intros H1 H2; cmp_cases.
Qed.

Lemma le_trans (a b c : number) :
  le a b = true -> le b c = true -> le a c = true.
Proof.
  unfold le, SFleb.
  destruct a as [sa|sa| |sa ma ea], b as [sb|sb| |sb mb eb],
    c as [sc|sc| |sc mc ec]; simpl;
    try destruct sa; try destruct sb; try destruct sc; simpl;
    try discriminate; try reflexivity; intros H1 H2; cmp_cases.
Qed.

Lemma isFinite_not_nan (x : number) : isFinite x = true -> isNaN x = false.
Proof. destruct x; simpl; congruence. Qed.

Lemma lt_not_nan (a b : number) :
  lt a b = true -> isNaN a = false /\ isNaN b = false.
Proof.
  unfold lt, SFltb. intros H.
  destruct (isNaN a) eqn:Ha, (isNaN b) eqn:Hb; auto;
    assert (Hn : SFcompare a b = None) by (apply SFcompare_none; auto);
    rewrite Hn in H; discriminate.
Qed.

Lemma le_not_nan (a b : number) :
  le a b = true -> isNaN a = false /\ isNaN b = false.
Proof.
  unfold le, SFleb. intros H.
  destruct (isNaN a) eqn:Ha, (isNaN b) eqn:Hb; auto;
    assert (Hn : SFcompare a b = None) by (apply SFcompare_none; auto);
    rewrite Hn in H; discriminate.
Qed.

(** On numbers other than [NaN], [a <= b] is the negation of [b < a]. *)
Lemma le_negb_lt (a b : number) :
  isNaN a = false -> isNaN b = false -> le a b = negb (lt b a).
Proof.
  intros Ha Hb. unfold le, lt, SFleb, SFltb.
  rewrite (SFcompare_antisym a b).
  destruct (SFcompare a b) as [[| |]|] eqn:E; simpl; try reflexivity.
  apply SFcompare_none in E. destruct E; congruence.
Qed.

Lemma lt_le (a b : number) : lt a b = true -> le a b = true.
Proof.
  unfold le, lt, SFleb, SFltb. destruct (SFcompare a b) as [[| |]|]; congruence.
Qed.

Lemma le_not_gt (a b : number) : le a b = true -> lt b a = false.
Proof.
  intros H. destruct (le_not_nan _ _ H) as [Ha Hb].
  rewrite (le_negb_lt a b Ha Hb) in H.
  destruct (lt b a); simpl in H; congruence.
Qed.


(** Rounding a non-negative mantissa never yields [NaN]. *)
Lemma shr_1_nonneg mrs : 0 <= shr_m mrs -> 0 <= shr_m (shr_1 mrs).
Proof.
  destruct mrs as [m r s]; simpl.
  destruct m as [|p|p]; simpl; try lia; destruct p; simpl; lia.
Qed.

Lemma iter_shr_1_nonneg p : forall mrs,
  0 <= shr_m mrs -> 0 <= shr_m (iter_pos shr_1 p mrs).
Proof.
  induction p as [p IH|p IH|]; simpl; intros mrs H.
  - apply IH, IH, shr_1_nonneg, H.
  - apply IH, IH, H.
  - apply shr_1_nonneg, H.
Qed.

Lemma shr_fexp_nonneg pr em m e l :
  0 <= m -> 0 <= shr_m (fst (shr_fexp pr em m e l)).
Proof.
  intros H. unfold shr_fexp, shr.
  assert (H0 : 0 <= shr_m (shr_record_of_loc m l)).
  { destruct l as [|[| |]]; simpl; exact H. }
  destruct (fexp pr em (Zdigits2 m + e) - e); simpl; try exact H0.
  apply iter_shr_1_nonneg, H0.
Qed.

Lemma round_nearest_even_nonneg m l : 0 <= m -> 0 <= round_nearest_even m l.
Proof.
  intros H. destruct l as [|[| |]]; simpl; try lia.
  destruct (Z.even m); lia.
Qed.

Lemma binary_round_aux_not_nan pr em sx mx ex lx :
  0 <= mx -> isNaN (binary_round_aux pr em sx mx ex lx) = false.
Proof.
  intros H. unfold binary_round_aux.
  pose proof (shr_fexp_nonneg pr em mx ex lx H) as H1.
  destruct (shr_fexp pr em mx ex lx) as [mrs' e']. simpl in H1.
  pose proof (shr_fexp_nonneg pr em _ e' loc_Exact
                (round_nearest_even_nonneg _ (loc_of_shr_record mrs') H1)) as H2.
  destruct (shr_fexp pr em
              (round_nearest_even (shr_m mrs') (loc_of_shr_record mrs'))
              e' loc_Exact) as [mrs'' e'']. simpl in H2.
  destruct (shr_m mrs'') as [|p|p]; try reflexivity.
  - destruct (e'' <=? em - pr); reflexivity.
  - lia.
Qed.

Lemma div_core_nonneg pr em m1 e1 m2 e2 :
  0 <= fst (fst (SFdiv_core_binary pr em (Zpos m1) e1 (Zpos m2) e2)).
Proof.
  unfold SFdiv_core_binary.
  set (s := _ - _ - _).
  set (m' := match s with
             | Z0 => Zpos m1
             | Zpos _ => Z.shiftl (Zpos m1) s
             | Zneg _ => 0
             end).
  assert (Hm : 0 <= m').
  { subst m'. destruct s; try lia. apply Z.shiftl_nonneg. lia. }
  pose proof (Z_div_mod m' (Zpos m2) eq_refl) as Hd.
  destruct (Z.div_eucl m' (Zpos m2)) as [q r]. simpl.
  destruct Hd as [Hd Hr]. nia.
Qed.

(** A finite number divided by a positive one is a number. *)
Lemma div_not_nan (x y : number) :
  isFinite x = true -> lt (of_Z 0) y = true -> isNaN (x / y)%js = false.
Proof.
  intros Hx Hy. unfold div.
  destruct x as [sx|sx| |sx mx ex]; try discriminate;
    destruct y as [sy|sy| |sy my ey]; try discriminate; try reflexivity.
  unfold SFdiv.
  pose proof (div_core_nonneg prec emax mx ex my ey) as H.
  destruct (SFdiv_core_binary prec emax (Zpos mx) ex (Zpos my) ey)
    as [[mz ez] lz].
  apply binary_round_aux_not_nan. exact H.
Qed.


Lemma binary_normalize_not_nan pr em m e sz :
  isNaN (binary_normalize pr em m e sz) = false.
Proof.
  destruct m as [|p|p]; simpl; try reflexivity; unfold binary_round;
    destruct (shl_align _ _ _) as [mz ez]; apply binary_round_aux_not_nan; lia.
Qed.


Lemma floor_not_nan (x : number) : isNaN x = false -> Math_floor x <> INaN.
Proof. destruct x; simpl; congruence. Qed.

Lemma in_lags (a b tau : Z) : In tau (lags (IInt a) (IInt b)) -> a <= tau <= b.
Proof.
  unfold lags. rewrite in_map_iff. intros [k [<- Hk]].
  apply in_seq in Hk. lia.
Qed.

Lemma lags_cons (a b : Z) :
  a <= b -> lags (IInt a) (IInt b) = a :: lags (IInt (a + 1)) (IInt b).
Proof.
  intros H. unfold lags.
  replace (Z.to_nat (b - a + 1)) with (S (Z.to_nat (b - (a + 1) + 1))) by lia.
  rewrite <- cons_seq, <- seq_shift, map_cons, map_map. f_equal.
  - simpl. lia.
  - apply map_ext. intros k. lia.
Qed.

End NumberFacts.

(* ================================================================== *)
(** ** detectPitchYIN                                                  *)
(* ================================================================== *)

Section YinFacts.
Import Js Pitch.

Lemma finish_some sampleRate betterTau minF maxF f :
  finish sampleRate betterTau minF maxF = Some f ->
  f = (sampleRate / betterTau)%js /\ isFinite f = true /\
  (f <= of_Z 0)%js = false /\ (f < minF)%js = false /\ (f > maxF)%js = false.
Proof.
  unfold finish. intros H.
  destruct (isFinite (sampleRate / betterTau)%js) eqn:Hfin;
    cbn [negb orb] in H; [|discriminate].
  destruct ((sampleRate / betterTau <= of_Z 0)%js) eqn:Hpos;
    [discriminate|].
  destruct ((sampleRate / betterTau < minF)%js) eqn:Hlo;
    cbn [orb] in H; [discriminate|].
  destruct ((sampleRate / betterTau > maxF)%js) eqn:Hhi;
    [discriminate|].
  injection H as <-. auto.
Qed.

(** A present result always comes out of the final guards. *)
Lemma detectPitchYIN_some buffer sampleRate options f :
  detectPitchYIN buffer sampleRate options = Normal (Some f) ->
  exists betterTau,
    finish sampleRate betterTau (minFreqOf options) (maxFreqOf options)
    = Some f.
Proof.
  unfold detectPitchYIN. intros H.
  destruct (Z.of_nat (length buffer) <? 512); [discriminate|].
  destruct (ige _ _); [discriminate|].
  destruct (new_Float32Array _) as [yin0|e]; [|discriminate].
  destruct (candidate _ _ _ _) as [tau|]; [|discriminate].
  injection H as H. eauto.
Qed.

(** With a finite sample rate and a positive frequency range the typed
    array allocation succeeds, so the call returns. *)
Lemma detectPitchYIN_returns buffer sampleRate options :
  (of_Z 0 < minFreqOf options)%js = true ->
  (minFreqOf options < maxFreqOf options)%js = true ->
  isFinite sampleRate = true ->
  Z.of_nat (length buffer) <= 2 ^ 53 - 1 ->
  exists r, detectPitchYIN buffer sampleRate options = Normal r.
Proof.
  intros Hmin Hlt Hsr Hlen.
  assert (Hmax : (of_Z 0 < maxFreqOf options)%js = true).
  { apply le_lt_trans with (minFreqOf options); [apply lt_le|]; assumption. }
  pose proof (floor_not_nan _ (div_not_nan _ _ Hsr Hmin)) as F1.
  pose proof (floor_not_nan _ (div_not_nan _ _ Hsr Hmax)) as F2.
  unfold detectPitchYIN.
  destruct (Z.of_nat (length buffer) <? 512) eqn:Hb; [eauto|].
  apply Z.ltb_ge in Hb.
  unfold tauMinOf, tauMaxOf.
  destruct (Math_floor (sampleRate / maxFreqOf options)%js) as [|s1|z1];
    [congruence| |];
    destruct (Math_floor (sampleRate / minFreqOf options)%js) as [|s2|z2];
    try congruence;
    try destruct s1; try destruct s2; simpl; eauto;
    match goal with
    | |- context [ige ?a ?b] => destruct (ige a b) eqn:Hg; [eauto|]
    end;
    unfold ige, icompare in Hg.
  all: cbn [Math_max_i Math_min_i isucc new_Float32Array] in *.
  all: repeat match goal with
       | H : context [?a ?= ?b] |- _ =>
           destruct (Z.compare_spec a b); try discriminate
       end.
  all: try discriminate.
  all: try match goal with
    | |- context [(?a <? 0) || (?c <? ?b)] =>
        replace ((a <? 0) || (c <? b)) with false
          by (symmetry; apply orb_false_iff; split; apply Z.ltb_ge; lia)
    end.
  all: destruct (candidate _ _ _ _); eauto.
Qed.

(** *** The searches return lags of the range *)

Lemma walkRight_in yin : forall rest tau,
  walkRight yin tau rest = tau \/ In (walkRight yin tau rest) rest.
Proof.
  induction rest as [|next rest IH]; simpl; intros tau; auto.
  destruct (get yin next < get yin tau)%js; auto.
  destruct (IH next) as [-> | H]; auto.
Qed.

Lemma thresholdSearch_in yin threshold : forall taus,
  thresholdSearch yin threshold taus = -1 \/
  In (thresholdSearch yin threshold taus) taus.
Proof.
  induction taus as [|tau rest IH]; simpl; auto.
  destruct (get yin tau < threshold)%js.
  - right. destruct (walkRight_in yin rest tau) as [-> | H]; auto.
  - destruct IH; auto.
Qed.

Lemma fallback_fold_in yin : forall taus acc,
  let step := fun '(minVal, tauEstimate) tau =>
                if (get yin tau < minVal)%js then (get yin tau, tau)
                else (minVal, tauEstimate) in
  snd (fold_left step taus acc) = snd acc \/
  In (snd (fold_left step taus acc)) taus.
Proof.
  induction taus as [|tau rest IH]; simpl; intros acc; auto.
  destruct acc as [minVal est].
  destruct (get yin tau < minVal)%js.
  - destruct (IH (get yin tau, tau)) as [H | H]; simpl in H; auto.
  - destruct (IH (minVal, est)) as [H | H]; simpl in H; auto.
Qed.

Lemma fallbackSearch_in yin taus :
  fallbackSearch yin taus = -1 \/ In (fallbackSearch yin taus) taus.
Proof. apply (fallback_fold_in yin taus (Infinity, -1)). Qed.

Lemma candidate_in yin threshold tauMin tauMax tau :
  candidate yin threshold tauMin tauMax = Some tau ->
  In tau (lags tauMin tauMax).
Proof.
  unfold candidate. intros H.
  destruct (thresholdSearch yin threshold (lags tauMin tauMax) =? -1) eqn:E1.
  - destruct (fallbackSearch yin (lags tauMin tauMax) =? -1) eqn:E2;
      [discriminate|].
    injection H as <-. apply Z.eqb_neq in E2.
    destruct (fallbackSearch_in yin (lags tauMin tauMax)); tauto.
  - injection H as <-. apply Z.eqb_neq in E1.
    destruct (thresholdSearch_in yin threshold (lags tauMin tauMax)); tauto.
Qed.

(** The lag bounds, when a lag of the range exists. *)
Lemma lag_bounds bufSize sampleRate minF maxF tau :
  In tau (lags (tauMinOf sampleRate maxF) (tauMaxOf bufSize sampleRate minF)) ->
  exists a T,
    tauMinOf sampleRate maxF = IInt a /\
    tauMaxOf bufSize sampleRate minF = IInt T /\
    2 <= a /\ a <= tau /\ tau <= T.
Proof.
  unfold tauMinOf, tauMaxOf. intros H.
  destruct (Math_max_i (IInt 2) (Math_floor (sampleRate / maxF)%js))
    as [|s|a] eqn:Ea; try (simpl in H; contradiction).
  destruct (Math_min_i (IInt (bufSize - 3)) (Math_floor (sampleRate / minF)%js))
    as [|s|T] eqn:ET; try (simpl in H; contradiction).
  exists a, T. apply in_lags in H.
  assert (2 <= a).
  { destruct (Math_floor (sampleRate / maxF)%js) as [|[|]|z]; simpl in Ea;
      try discriminate; injection Ea as <-; lia. }
  tauto.
Qed.



(** Outside these conditions the allocation of line 32 can raise: with an
    infinite [maxFreq] and a sample rate of negative infinity, [tauMin] is
    [NaN], the test [tauMin >= tauMax] is false and the array length is
    negative infinity. *)
Remark detectPitchYIN_allocation_can_raise :
  detectPitchYIN Samples.alternating (S754_infinity true)
    (mkYinOptions None (Some Infinity) None)
  = Throw RangeError.
Proof. vm_compute. reflexivity. Qed.

(** C7: a block shorter than 512 samples, or lag bounds with
    tauMin >= tauMax, make detectPitchYIN return the absent value; no
    exception is raised. *)
Theorem detectPitchYIN_absent_without_range buffer sampleRate options :
  Z.of_nat (length buffer) < 512 \/
  ige (tauMinOf sampleRate (maxFreqOf options))
      (tauMaxOf (Z.of_nat (length buffer)) sampleRate (minFreqOf options))
  = true ->
  detectPitchYIN buffer sampleRate options = Normal None.
Proof.
  intros H. unfold detectPitchYIN.
  destruct (Z.of_nat (length buffer) <? 512) eqn:Hb; [reflexivity|].
  apply Z.ltb_ge in Hb.
  destruct H as [H | H]; [lia|].
  rewrite H. reflexivity.
Qed.

Lemma detectPitchYIN_absent_without_range_witness :
  detectPitchYIN (firstn 511 Samples.alternating) (of_Z 44100)
    Samples.no_yin_options = Normal None /\
  detectPitchYIN Samples.alternating (of_Z 100) Samples.no_yin_options
  = Normal None.
Proof.
  split.
  - apply detectPitchYIN_absent_without_range. left. vm_compute. reflexivity.
  - apply detectPitchYIN_absent_without_range. right. vm_compute. reflexivity.
Defined.



(** The interpolation test of line 78 on a lag of the range. *)
Lemma parabolic_cases yin tau T :
  1 < tau -> tau <= T ->
  (tau = T -> parabolic yin tau (IInt T) = of_Z tau) /\
  (tau < T -> parabolic yin tau (IInt T) = refinedLag yin tau).
Proof.
  intros H1 HT. unfold parabolic, ilt, icompare.
  replace (1 <? tau) with true by (symmetry; apply Z.ltb_lt; lia).
  split; intros H.
  - subst. rewrite Z.compare_refl. reflexivity.
  - replace (tau ?= T) with Lt by (symmetry; apply Z.compare_lt_iff; lia).
    reflexivity.
Qed.

(** C3 (as amended): the candidate lag lies in [tauMin, tauMax] with
    tauMin >= 2, and it is refined by parabolic interpolation exactly when
    it is below tauMax.  A candidate equal to tauMax is returned unrefined
    (the frequency is sampleRate / tau); a candidate equal to tauMin is
    refined like any other lag below tauMax. *)
Theorem parabolic_applied_below_tauMax buffer sampleRate options yin0 tau :
  let tauMin := tauMinOf sampleRate (maxFreqOf options) in
  let tauMax := tauMaxOf (Z.of_nat (length buffer)) sampleRate
                  (minFreqOf options) in
  let yin := cmndArray buffer tauMax yin0 in
  512 <= Z.of_nat (length buffer) ->
  ige tauMin tauMax = false ->
  new_Float32Array (isucc tauMax) = Normal yin0 ->
  candidate yin (thresholdOf options) tauMin tauMax = Some tau ->
  exists a T,
    tauMin = IInt a /\ tauMax = IInt T /\ 2 <= a /\ a <= tau /\ tau <= T /\
    (tau = T ->
     detectPitchYIN buffer sampleRate options
     = Normal (finish sampleRate (of_Z tau)
                 (minFreqOf options) (maxFreqOf options))) /\
    (tau < T ->
     detectPitchYIN buffer sampleRate options
     = Normal (finish sampleRate (refinedLag yin tau)
                 (minFreqOf options) (maxFreqOf options))).
Proof.
  intros tauMin tauMax yin Hlen Hge Halloc Hcand.
  destruct (lag_bounds _ _ _ _ _ (candidate_in _ _ _ _ _ Hcand))
    as (a & T & Ea & ET & Ha & Hat & HtT).
  exists a, T.
  assert (Hdet : detectPitchYIN buffer sampleRate options
                 = Normal (finish sampleRate (parabolic yin tau tauMax)
                             (minFreqOf options) (maxFreqOf options))).
  { unfold detectPitchYIN.
    replace (Z.of_nat (length buffer) <? 512) with false
      by (symmetry; apply Z.ltb_ge; lia).
    fold tauMin tauMax. rewrite Hge, Halloc. fold yin. rewrite Hcand.
    reflexivity. }
  destruct (parabolic_cases yin tau T ltac:(lia) HtT) as [P1 P2].
  fold tauMin in Ea. fold tauMax in ET.
  repeat split; try assumption.
  - intros H. rewrite Hdet, ET, (P1 H). reflexivity.
  - intros H. rewrite Hdet, ET, (P2 H). reflexivity.
Qed.

Lemma parabolic_applied_below_tauMax_witness :
  detectPitchYIN Samples.sawtooth20 (of_Z 1000) Samples.no_yin_options
  = Normal (finish (of_Z 1000) (of_Z 20) (of_Z 50) (of_Z 2000)) /\
  detectPitchYIN Samples.alternating (of_Z 1000) Samples.no_yin_options
  = Normal (finish (of_Z 1000) (refinedLag Samples.cmnd_alternating 2)
              (of_Z 50) (of_Z 2000)).
Proof.
  split.
  - destruct (parabolic_applied_below_tauMax Samples.sawtooth20 (of_Z 1000)
                Samples.no_yin_options (repeat (S754_zero false) 21) 20)
      as (a & T & Ea & ET & _ & _ & _ & H & _).
    + vm_compute. discriminate.
    + vm_compute. reflexivity.
    + vm_compute. reflexivity.
    + vm_compute. reflexivity.
    + injection ET as <-. exact (H eq_refl).
  - destruct (parabolic_applied_below_tauMax Samples.alternating (of_Z 1000)
                Samples.no_yin_options (repeat (S754_zero false) 21) 2)
      as (a & T & Ea & ET & _ & _ & _ & _ & H).
    + vm_compute. discriminate.
    + vm_compute. reflexivity.
    + vm_compute. reflexivity.
    + vm_compute. reflexivity.
    + injection ET as <-. rewrite (H eq_refl).
      vm_compute. reflexivity.
Defined.

(** C3 as stated fails at the lower boundary: for 512 alternating samples
    at 1000 Hz the candidate lag is tauMin = 2, the interpolation moves it,
    and the frequency returned is not sampleRate / 2. *)
Lemma boundary_tauMin_is_refined :
  let f := S754_finite false 4628374963828463 (-43) in
  tauMinOf (of_Z 1000) (maxFreqOf Samples.no_yin_options) = IInt 2 /\
  tauMaxOf 512 (of_Z 1000) (minFreqOf Samples.no_yin_options) = IInt 20 /\
  cmndArray Samples.alternating (IInt 20) (repeat (S754_zero false) 21)
  = Samples.cmnd_alternating /\
  candidate Samples.cmnd_alternating (thresholdOf Samples.no_yin_options)
    (IInt 2) (IInt 20) = Some 2 /\
  parabolic Samples.cmnd_alternating 2 (IInt 20) <> of_Z 2 /\
  detectPitchYIN Samples.alternating (of_Z 1000) Samples.no_yin_options
  = Normal (Some f) /\
  (f === of_Z 1000 / of_Z 2)%js = false.
Proof.
  vm_compute. repeat split; try reflexivity. discriminate.
Qed.

End YinFacts.

(* ================================================================== *)
(** ** The MicPitch pipeline                                           *)
(* ================================================================== *)

Section PipelineFacts.
Import Js Mic.

(** C1 as stated fails: the constructor accepts an option set with
    minFreq >= maxFreq, a smoothing coefficient above 1 and a non-positive
    averaging window, and stores it as given. *)
Lemma constructor_accepts_invalid_options :
  let opts := mkOptionsArg (Some (of_Z 2000)) (Some (of_Z 50)) None None None
                (Some (of_Z 7)) (Some (of_Z (-1))) None None in
  exists self : MicPitch unit,
    constructor opts = Normal self /\
    (minFreq (options self) >= maxFreq (options self))%js = true /\
    (smoothing (options self) > of_Z 1)%js = true /\
    (averageSeconds (options self) <= of_Z 0)%js = true.
Proof.
  eexists. split; [reflexivity|]. vm_compute. auto.
Qed.

(** C1 (as amended): construction never fails and validates nothing: for
    every option set the constructor returns an instance whose options are
    the supplied values over the defaults, with an absent smoothed value, an
    empty history and the running flag off. *)
Theorem constructor_never_fails (U : Type) (opts : OptionsArg) :
  exists self : MicPitch U,
    constructor opts = Normal self /\
    options self = spread opts /\
    pipelineState self = (None, [], false, spread opts).
Proof.
  eexists. split; [reflexivity|]. split; reflexivity.
Qed.

(** C4: the smoothing step of a cycle.  An absent estimate clears the
    smoothed value; a present estimate with no prior value is taken as it
    is; with a prior value and alpha > 0 the result is the mix with
    clamp(alpha, 0, 1); with alpha <= 0 the estimate passes through. *)
Theorem smoothing_step (U : Type) (self : MicPitch U) buffer current nowT :
  _emaFreq (record self buffer current nowT)
  = smooth (_emaFreq self) current (smoothing (options self)) /\
  (forall prior alpha, smooth prior None alpha = None) /\
  (forall c alpha, smooth None (Some c) alpha = Some c) /\
  (forall p c alpha,
      (alpha > of_Z 0)%js = true ->
      smooth (Some p) (Some c) alpha
      = Some (Spec.clamp alpha (of_Z 0) (of_Z 1) * c
              + (of_Z 1 - Spec.clamp alpha (of_Z 0) (of_Z 1)) * p)%js) /\
  (forall prior alpha,
      (alpha <= of_Z 0)%js = true -> smooth prior current alpha = current).
Proof.
  split; [reflexivity|].
  split; [reflexivity|].
  split; [reflexivity|].
  split.
  - intros p c alpha H. unfold smooth. rewrite H. reflexivity.
  - intros prior alpha H. unfold smooth.
    destruct current as [c|]; [|reflexivity].
    destruct prior as [p|]; [|reflexivity].
    unfold gt. change (SFltb (of_Z 0) alpha) with (lt (of_Z 0) alpha).
    rewrite (le_not_gt _ _ H). reflexivity.
Qed.

Lemma smoothing_step_witness :
  smooth (Some (of_Z 440)) (Some (of_Z 450)) (of_Z 1 / of_Z 4)%js
  = Some (of_Z 885 / of_Z 2)%js /\
  smooth (Some (of_Z 440)) (Some (of_Z 450)) (of_Z 0) = Some (of_Z 450).
Proof.
  destruct (smoothing_step unit (Samples.pipeline (Some (of_Z 440)) [])
              [] (Some (of_Z 450)) (of_Z 0)) as (_ & _ & _ & Hmix & Hoff).
  split.
  - rewrite (Hmix (of_Z 440) (of_Z 450) (of_Z 1 / of_Z 4)%js eq_refl).
    vm_compute. reflexivity.
  - exact (Hoff (Some (of_Z 440)) (of_Z 0) eq_refl).
Defined.

(** *** Chronological histories *)

Lemma chronological_tail a rest :
  Spec.chronological (a :: rest) = true -> Spec.chronological rest = true.
Proof. simpl. intros H. apply andb_true_iff in H. tauto. Qed.

Lemma chronological_head a rest :
  Spec.chronological (a :: rest) = true ->
  isNaN (t a) = false /\
  Forall (fun x => (t a <= t x)%js = true) rest.
Proof.
  revert a. induction rest as [|b rest IH]; intros a H.
  - simpl in H. split; [|constructor].
    destruct (isNaN (t a)); [discriminate | reflexivity].
  - cbn [Spec.chronological] in H.
    apply andb_true_iff in H. destruct H as [H Hrest].
    apply andb_true_iff in H. destruct H as [Ha Hab].
    split; [destruct (isNaN (t a)); [discriminate | reflexivity]|].
    constructor; [exact Hab|].
    destruct (IH b Hrest) as [_ Hb].
    eapply Forall_impl; [|exact Hb].
    intros x Hx. simpl in Hx. eapply le_trans; eassumption.
Qed.

Lemma chronological_snoc h x :
  Spec.chronological (h ++ [x]) = true ->
  Spec.chronological h = true /\ isNaN (t x) = false /\
  Forall (fun e => (t e <= t x)%js = true) h.
Proof.
  induction h as [|a rest IH]; intros H.
  - simpl in H. repeat split; [|constructor].
    destruct (isNaN (t x)); [discriminate | reflexivity].
  - pose proof (chronological_head _ _ H) as [Ha Hall].
    pose proof (chronological_tail _ _ H) as Hrest.
    destruct (IH Hrest) as (Hc & Hx & Hle).
    repeat split.
    + cbn [Spec.chronological]. rewrite Ha, Hc. simpl.
      destruct rest as [|b r]; [reflexivity|].
      inversion Hall; subst. rewrite H2. reflexivity.
    + exact Hx.
    + constructor; [|exact Hle].
      apply Forall_app in Hall. destruct Hall as [_ Hall].
      inversion Hall; subst. assumption.
Qed.

(** *** The windowed average *)

Lemma older_not_at_or_after (x cutoff : number) :
  (x < cutoff)%js = true -> (x >= cutoff)%js = false.
Proof.
  intros H. unfold ge. change (SFleb cutoff x) with (le cutoff x).
  destruct (le cutoff x) eqn:E; [|reflexivity].
  rewrite (le_not_gt _ _ E) in H. discriminate.
Qed.

Lemma not_older_at_or_after (x cutoff : number) :
  isNaN x = false -> isNaN cutoff = false ->
  (x < cutoff)%js = false -> (x >= cutoff)%js = true.
Proof.
  intros Hx Hc H. unfold ge. change (SFleb cutoff x) with (le cutoff x).
  rewrite (le_negb_lt _ _ Hc Hx), H. reflexivity.
Qed.

Lemma qualifying_app cutoff h1 h2 :
  Spec.qualifying cutoff (h1 ++ h2)
  = Spec.qualifying cutoff h1 ++ Spec.qualifying cutoff h2.
Proof.
  induction h1 as [|a rest IH]; simpl; [reflexivity|].
  destruct (f a) as [v|]; [|exact IH].
  destruct ((t a >= cutoff)%js && isFinite v); simpl; rewrite IH; reflexivity.
Qed.

Lemma qualifying_all_older cutoff h :
  Forall (fun e => (t e < cutoff)%js = true) h -> Spec.qualifying cutoff h = [].
Proof.
  induction 1 as [|a rest Ha _ IH]; simpl; [reflexivity|].
  rewrite (older_not_at_or_after _ _ Ha). simpl.
  destruct (f a); exact IH.
Qed.

(** On a chronological history the backward scan adds up exactly the
    qualifying values, the most recent first, and counts them. *)
Lemma scan_qualifying cutoff :
  isNaN cutoff = false ->
  forall h, Spec.chronological h = true ->
  forall sum count,
    scan cutoff (rev h) sum count
    = (fold_left add (rev (Spec.qualifying cutoff h)) sum,
       (count + length (Spec.qualifying cutoff h))%nat).
Proof.
  intros Hc h. induction h as [|x h IH] using rev_ind; intros Hh sum count.
  - simpl. rewrite Nat.add_0_r. reflexivity.
  - destruct (chronological_snoc _ _ Hh) as (Hh' & Hx & Hle).
    rewrite rev_app_distr, qualifying_app. simpl rev at 1. simpl app at 1.
    cbn [scan].
    destruct (t x < cutoff)%js eqn:Hold.
    + rewrite (qualifying_all_older cutoff h).
      * simpl. rewrite (older_not_at_or_after _ _ Hold). simpl.
        destruct (f x); simpl; rewrite Nat.add_0_r; reflexivity.
      * eapply Forall_impl; [|exact Hle].
        intros e He. simpl in He. eapply le_lt_trans; eassumption.
    + rewrite rev_app_distr, fold_left_app, length_app.
      simpl. rewrite (not_older_at_or_after _ _ Hx Hc Hold). simpl.
      destruct (f x) as [v|]; [destruct (isFinite v)|]; simpl;
        rewrite (IH Hh'); f_equal; lia.
Qed.



(** *** Eviction *)

Lemma trim_split cutoff h :
  exists removed,
    h = removed ++ trim cutoff h /\
    Forall (fun e => (t e < cutoff)%js = true) removed.
Proof.
  induction h as [|a rest IH]; simpl.
  - exists []. split; [reflexivity | constructor].
  - destruct (t a < cutoff)%js eqn:Ha.
    + destruct IH as (removed & E & Hall).
      exists (a :: removed). split.
      * simpl. rewrite <- E. reflexivity.
      * constructor; assumption.
    + exists []. split; [reflexivity | constructor].
Qed.

Lemma trim_kept cutoff h :
  Spec.chronological h = true ->
  Forall (fun e => (t e < cutoff)%js = false) (trim cutoff h).
Proof.
  induction h as [|a rest IH]; simpl trim; intros Hh; [constructor|].
  destruct (t a < cutoff)%js eqn:Ha.
  - apply IH. eapply chronological_tail. exact Hh.
  - constructor; [exact Ha|].
    destruct (chronological_head _ _ Hh) as [_ Hall].
    eapply Forall_impl; [|exact Hall].
    intros x Hx. simpl in Hx.
    destruct (t x < cutoff)%js eqn:E; [|reflexivity].
    rewrite (le_lt_trans _ _ _ Hx E) in Ha. discriminate.
Qed.

(** Every listener is called, in order, whether or not an earlier one
    raised; the loop itself completes normally. *)
Lemma emit_all_fold (U : Type) (ls : list (listener U)) freq : forall u,
  emit_all ls freq u
  = Normal (fold_left (fun u cb => after (call cb freq u)) ls u).
Proof.
  induction ls as [|cb ls IH]; intros u; simpl; [reflexivity|].
  destruct (call cb freq u); simpl; apply IH.
Qed.

(** A cycle that reaches the smoothing step leaves the state [record]
    describes. *)
Lemma tick_cycle (U : Type) (self : MicPitch U) input u an b c freq :
  _analyser self = Some an -> _buffer self = Some b -> _ctx self = Some c ->
  rawEstimate self (fill b (samples input)) (sampleRate input) = Normal freq ->
  fst (fst (tick self input u))
  = record self (fill b (samples input)) freq (now input) /\
  snd (tick self input u) = Normal tt.
Proof.
  intros Ha Hb Hc Hr. unfold tick. rewrite Ha, Hb, Hc, Hr.
  unfold _emit. rewrite emit_all_fold. split; reflexivity.
Qed.

(** C6: after the append of a cycle at time [now], the history is the
    appended history without a front segment: every removed entry is older
    than now - max(1, averageSeconds) * 1000 - 200 (so none at or after the
    cutoff is removed), and, the appended history being chronological, no
    entry that is kept is older than the cutoff. *)
Theorem tick_evicts_expired (U : Type) (self : MicPitch U) input u an b c freq :
  _analyser self = Some an -> _buffer self = Some b -> _ctx self = Some c ->
  rawEstimate self (fill b (samples input)) (sampleRate input) = Normal freq ->
  Spec.chronological
    (_history self
     ++ [mkItem (now input) (_emaFreq (fst (fst (tick self input u))))])
  = true ->
  exists removed,
    _history self
    ++ [mkItem (now input) (_emaFreq (fst (fst (tick self input u))))]
    = removed ++ _history (fst (fst (tick self input u))) /\
    Forall
      (fun e =>
         (t e < Spec.evictionCutoff (now input) (averageSeconds (options self)))%js
         = true /\
         (t e >= Spec.evictionCutoff (now input) (averageSeconds (options self)))%js
         = false)
      removed /\
    Forall
      (fun e =>
         (t e < Spec.evictionCutoff (now input) (averageSeconds (options self)))%js
         = false)
      (_history (fst (fst (tick self input u)))).
Proof.
  intros Ha Hb Hc Hr.
  destruct (tick_cycle U self input u an b c freq Ha Hb Hc Hr) as [-> _].
  cbn [record _emaFreq _history]. intros Hchron.
  change (trimCutoff self (now input))
    with (Spec.evictionCutoff (now input) (averageSeconds (options self))).
  destruct (trim_split
              (Spec.evictionCutoff (now input) (averageSeconds (options self)))
              (_history self
               ++ [mkItem (now input)
                     (smooth (_emaFreq self) freq (smoothing (options self)))]))
    as (removed & E & Hold).
  exists removed. split; [exact E|]. split.
  - eapply Forall_impl; [|exact Hold].
    intros e He. simpl in He. split; [exact He|].
    apply older_not_at_or_after. exact He.
  - apply trim_kept. exact Hchron.
Qed.

Lemma tick_evicts_expired_witness :
  _history (fst (fst (tick (Samples.pipeline (Some (of_Z 440))
                             Samples.history_440)
                        Samples.silence_at_1600 tt)))
  = skipn 4 Samples.history_440 ++ [mkItem (of_Z 1600) None] /\
  exists removed,
    Samples.history_440 ++ [mkItem (of_Z 1600) None]
    = removed
      ++ _history (fst (fst (tick (Samples.pipeline (Some (of_Z 440))
                                     Samples.history_440)
                                Samples.silence_at_1600 tt))) /\
    Forall (fun e => (t e < of_Z 400)%js = true /\ (t e >= of_Z 400)%js = false)
      removed /\
    Forall (fun e => (t e < of_Z 400)%js = false)
      (_history (fst (fst (tick (Samples.pipeline (Some (of_Z 440))
                                   Samples.history_440)
                              Samples.silence_at_1600 tt)))).
Proof.
  split; [vm_compute; reflexivity|].
  exact (tick_evicts_expired unit
           (Samples.pipeline (Some (of_Z 440)) Samples.history_440)
           Samples.silence_at_1600 tt 1%nat
           (repeat (S754_zero false) 2048) 0%nat None
           eq_refl eq_refl eq_refl eq_refl eq_refl).
Defined.

(** C8: [_emit] catches what a listener raises.  It always completes
    normally, having called every listener in order with the same value,
    each on the application state its predecessor left; and the pipeline
    state and the completion of a cycle are the same whatever the listeners
    are and do. *)
Theorem emit_isolates_listener_faults (U : Type) (self : MicPitch U)
    (freq : option number) (input : TickInput) (u u' : U)
    (others : list (listener U)) :
  _emit self freq u
  = Normal (fold_left (fun u cb => after (call cb freq u)) (_listeners self) u)
  /\
  with_listeners (fst (fst (tick (with_listeners self others) input u')))
    (_listeners self)
  = fst (fst (tick self input u)) /\
  snd (tick (with_listeners self others) input u') = snd (tick self input u).
Proof.
  split; [apply emit_all_fold|].
  unfold tick, _emit. cbn [with_listeners _analyser _buffer _ctx].
  destruct (_analyser self); [|destruct self; split; reflexivity].
  destruct (_buffer self); [|destruct self; split; reflexivity].
  destruct (_ctx self); [|destruct self; split; reflexivity].
  change (rawEstimate (with_listeners self others))
    with (rawEstimate self).
  destruct (rawEstimate self _ _); [|destruct self; split; reflexivity].
  rewrite !emit_all_fold. destruct self; split; reflexivity.
Qed.

(** Three subscribers that log the value they receive; the second one
    raises after logging.  The third one is still called. *)
Example emit_after_a_failing_listener :
  let logger (n : nat) : listener (list (nat * option number)) :=
    mkListener n (fun v log => Returned (log ++ [(n, v)])) in
  let failing (n : nat) : listener (list (nat * option number)) :=
    mkListener n (fun v log => Raised (log ++ [(n, v)])) in
  emit_all [logger 1%nat; failing 2%nat; logger 3%nat] (Some (of_Z 440)) []
  = Normal [(1%nat, Some (of_Z 440)); (2%nat, Some (of_Z 440));
            (3%nat, Some (of_Z 440))].
Proof. reflexivity. Qed.

(** C9: [start] on a running instance and [stop] on a stopped one change
    nothing, in the instance or in the browser.  Hence a second [start]
    leaves the pipeline state of the first and completes as it did (and
    changes nothing at all when the first one succeeded), and a second
    [stop] changes nothing. *)
Theorem start_stop_idempotent (U : Type) :
  (forall (self : MicPitch U) w,
      _running self = true -> start self w = (w, self, Normal tt)) /\
  (forall (self : MicPitch U) w,
      _running self = false -> stop self w = (w, self)) /\
  (forall (self : MicPitch U) w,
      let '(w1, self1, r1) := start self w in
      let '(w2, self2, r2) := start self1 w1 in
      pipelineState self2 = pipelineState self1 /\ r2 = r1 /\
      (r1 = Normal tt -> w2 = w1 /\ self2 = self1)) /\
  (forall (self : MicPitch U) w,
      let '(w1, self1) := stop self w in
      stop self1 w1 = (w1, self1)).
Proof.
  split; [|split; [|split]].
  - intros self w H. unfold start. rewrite H. reflexivity.
  - intros self w H. unfold stop. rewrite H. reflexivity.
  - intros self w.
    destruct (start self w) as [[w1 self1] r1] eqn:E1.
    destruct (start self1 w1) as [[w2 self2] r2] eqn:E2.
    unfold start in E1.
    destruct (_running self) eqn:Hrun.
    { injection E1 as <- <- <-.
      unfold start in E2. rewrite Hrun in E2. injection E2 as <- <- <-. auto. }
    destruct (hasAudioContext w) eqn:Haudio; cbn [negb] in E1.
    2:{ injection E1 as <- <- <-.
        unfold start in E2. rewrite Hrun, Haudio in E2. cbn [negb] in E2.
        injection E2 as <- <- <-. repeat split; try reflexivity; intros; discriminate. }
    cbn [fresh perform nextHandle hasAudioContext grantsMedia effects options]
      in E1.
    destruct (validFftSize (toUint32 (fftSize (options self)))) eqn:Hfft;
      cbn [negb] in E1.
    2:{ injection E1 as <- <- <-.
        unfold start in E2.
        cbn [_running hasAudioContext negb fresh perform nextHandle
               grantsMedia effects options] in E2.
        rewrite ?Hrun, ?Haudio in E2. cbn [negb] in E2.
        rewrite ?Hfft in E2. cbn [negb] in E2.
        injection E2 as <- <- <-. repeat split; try reflexivity; intros; discriminate. }
    unfold _replaceStream in E1.
    cbn [grantsMedia _deviceId fresh perform nextHandle hasAudioContext
           effects _source _stream _ctx _analyser options _buffer
           _timer _listeners _emaFreq _history _running] in E1.
    destruct (grantsMedia w (deviceConstraint (_deviceId self))) eqn:Hgrant; cbn [negb] in E1.
    + unfold _loop in E1. cbn in E1. injection E1 as <- <- <-.
      unfold start in E2. cbn [_running] in E2.
      injection E2 as <- <- <-. auto.
    + injection E1 as <- <- <-.
      unfold start in E2.
      cbn [_running hasAudioContext negb fresh perform nextHandle
             grantsMedia effects options] in E2.
      rewrite ?Hrun, ?Haudio in E2. cbn [negb] in E2.
      rewrite ?Hfft in E2. cbn [negb] in E2.
      unfold _replaceStream in E2.
      cbn [grantsMedia _deviceId fresh perform nextHandle hasAudioContext
             effects] in E2.
      rewrite ?Hgrant in E2.
      cbn [negb] in E2.
      injection E2 as <- <- <-. repeat split; try reflexivity; intros; discriminate.
  - intros self w. unfold stop at 1.
    destruct (_running self) eqn:Hrun; cbn [negb].
    + unfold stop. cbn. reflexivity.
    + unfold stop. rewrite Hrun. reflexivity.
Qed.

Lemma start_stop_idempotent_witness :
  start (Samples.pipeline None []) Samples.browser
  = (Samples.browser, Samples.pipeline None [], Normal tt) /\
  (forall self : MicPitch unit,
      constructor no_options = Normal self ->
      stop self Samples.browser = (Samples.browser, self)).
Proof.
  destruct (start_stop_idempotent unit) as (Hstart & Hstop & _ & _).
  split.
  - exact (Hstart (Samples.pipeline None []) Samples.browser eq_refl).
  - intros self H. apply Hstop. injection H as <-. reflexivity.
Defined.

End PipelineFacts.

(* ================================================================== *)
(** ** Further facts about numbers                                     *)
(* ================================================================== *)

Section ExactIntegers.
Import Js.

Lemma digits2_pos_size p : digits2_pos p = Pos.size p.
Proof. induction p; simpl; congruence. Qed.

Lemma digits2_pos_shift p k :
  digits2_pos (Pos.iter xO p k) = (digits2_pos p + k)%positive.
Proof.
  induction k as [|k IH] using Pos.peano_ind.
  - simpl. lia.
  - rewrite Pos.iter_succ. simpl. rewrite IH. lia.
Qed.

(** A mantissa of 53 bits with an exponent in range is kept as it is. *)
Lemma binary_round_aux_exact s m e :
  Zpos (digits2_pos m) = 53 -> -1074 <= e <= 971 ->
  binary_round_aux prec emax s (Zpos m) e loc_Exact = S754_finite s m e.
Proof.
  intros Hd He. unfold binary_round_aux, shr_fexp.
  cbn [Zdigits2 shr_record_of_loc]. rewrite Hd.
  unfold fexp, emin, prec, emax.
  replace (Z.max (53 + e - 53) (3 - 1024 - 53) - e) with 0 by lia.
  cbn [shr shr_m loc_of_shr_record round_nearest_even Zdigits2
         shr_record_of_loc].
  rewrite Hd.
  replace (Z.max (53 + e - 53) (3 - 1024 - 53) - e) with 0 by lia.
  cbn [shr shr_m].
  replace (e <=? 1024 - 53) with true by (symmetry; apply Z.leb_le; lia).
  reflexivity.
Qed.

(** Positive integers below 2^53 are exact doubles: finite, positive and
    not zero. *)
Lemma of_Z_pos_finite p :
  Zpos p < 2 ^ 53 -> exists m e, of_Z (Zpos p) = S754_finite false m e.
Proof.
  intros Hp.
  assert (Hd : Zpos (digits2_pos p) <= 53).
  { rewrite digits2_pos_size.
    pose proof (Pos.size_le p) as Hs.
    destruct (Z.le_gt_cases (Zpos (Pos.size p)) 53) as [H|H]; [exact H|].
    exfalso.
    assert (2 ^ 53 <= 2 ^ Zpos (Pos.size p) / 2).
    { replace (Zpos (Pos.size p)) with (Zpos (Pos.size p) - 1 + 1) by lia.
      rewrite Z.pow_add_r by lia. rewrite Z.pow_1_r, Z.div_mul by lia.
      apply Z.pow_le_mono_r; lia. }
    assert (Hs' : 2 ^ Zpos (Pos.size p) <= 2 * Zpos p).
    { change (2 * Zpos p) with (Zpos p~0).
      rewrite <- Pos2Z.inj_pow. apply Pos2Z.pos_le_pos. exact Hs. }
    assert (2 ^ Zpos (Pos.size p) / 2 <= Zpos p).
    { apply Z.div_le_upper_bound; lia. }
    lia. }
  unfold of_Z, binary_normalize, binary_round, shl_align.
  unfold fexp, emin, prec, emax.
  replace (Z.max (Zpos (digits2_pos p) + 0 - 53) (3 - 1024 - 53) - 0)
    with (Zpos (digits2_pos p) - 53) by lia.
  destruct (Zpos (digits2_pos p) - 53) as [|k|k] eqn:Ek; try lia.
  - replace (Z.max (Zpos (digits2_pos p) + 0 - 53) (3 - 1024 - 53))
      with 0 by lia.
    eexists; eexists.
    apply (binary_round_aux_exact false p 0); lia.
  - eexists; eexists.
    apply (binary_round_aux_exact false).
    + rewrite digits2_pos_shift. lia.
    + lia.
Qed.

Lemma of_nat_positive (n : nat) :
  (0 < n)%nat -> Z.of_nat n < 2 ^ 53 ->
  exists m e, of_nat n = S754_finite false m e.
Proof.
  intros Hn Hb. unfold of_nat.
  destruct (Z.of_nat n) as [|p|p] eqn:E; try lia.
  apply of_Z_pos_finite. lia.
Qed.

End ExactIntegers.

(* ================================================================== *)
(** ** Further properties of pitch.js                                  *)
(* ================================================================== *)

Section PitchExtras.
Import Js Pitch.

Lemma binary_round_aux_sign pr em s m e l :
  match binary_round_aux pr em s m e l with
  | S754_zero s' | S754_infinity s' | S754_finite s' _ _ => s' = s
  | S754_nan => True
  end.
Proof.
  unfold binary_round_aux.
  destruct (shr_fexp pr em m e l) as [mrs' e'].
  destruct (shr_fexp pr em _ e' loc_Exact) as [mrs'' e''].
  destruct (shr_m mrs''); auto.
  destruct (e'' <=? em - pr); reflexivity.
Qed.

Lemma lt_irrefl (x : number) : lt x x = false.
Proof.
  destruct (lt x x) eqn:E; [|reflexivity].
  rewrite (le_not_gt _ _ (lt_le _ _ E)) in E. discriminate.
Qed.

Lemma lt_trans (a b c : number) :
  lt a b = true -> lt b c = true -> lt a c = true.
Proof. intros H1 H2. eapply le_lt_trans; [apply lt_le|]; eassumption. Qed.

(** X1: the RMS is never negative (it is a number >= 0, or NaN). *)
Theorem computeRMS_never_negative (buffer : list number) :
  (computeRMS buffer < of_Z 0)%js = false.
Proof.
  unfold computeRMS, Math_sqrt.
  generalize (fold_left (fun sum v => (sum + v * v)%js) buffer (of_Z 0)
              / of_nat (length buffer))%js.
  intros x. destruct x as [s|[|]| |[|] m e]; try reflexivity.
  unfold SFsqrt.
  destruct (SFsqrt_core_binary prec emax (Zpos m) e) as [[mz ez] lz].
  pose proof (binary_round_aux_sign prec emax false mz ez lz) as H.
  destruct (binary_round_aux prec emax false mz ez lz) as [s|s| |s m' e'];
    try subst s; reflexivity.
Qed.

(** Every sample is [=== 0]. *)
Lemma sum_of_squares_silence (buffer : list number) :
  Forall (fun v => (v === of_Z 0)%js = true) buffer ->
  fold_left (fun sum v => (sum + v * v)%js) buffer (of_Z 0) = of_Z 0.
Proof.
  induction 1 as [|v rest Hv _ IH]; simpl; [reflexivity|].
  destruct v as [s|s| |s m e]; try (destruct s; discriminate);
    try discriminate.
  destruct s; exact IH.
Qed.

(** X2: the RMS of a silent block is +0, and the RMS of the empty block is
    NaN; no error is raised for either. *)
Theorem computeRMS_silence (buffer : list number) :
  Forall (fun v => (v === of_Z 0)%js = true) buffer ->
  Z.of_nat (length buffer) < 2 ^ 53 ->
  computeRMS buffer = match buffer with [] => NaN | _ => of_Z 0 end.
Proof.
  intros Hz Hlen. unfold computeRMS. rewrite (sum_of_squares_silence _ Hz).
  destruct buffer as [|v rest]; [reflexivity|].
  destruct (of_nat_positive (length (v :: rest))) as (m & e & ->);
    [simpl; lia | exact Hlen | reflexivity].
Qed.

Lemma computeRMS_silence_witness :
  computeRMS (repeat (S754_zero false) 2048) = of_Z 0 /\
  computeRMS [] = NaN.
Proof.
  split.
  - apply (computeRMS_silence (repeat (S754_zero false) 2048)).
    + apply Forall_forall. intros v Hv. apply repeat_spec in Hv. subst.
      reflexivity.
    + vm_compute. reflexivity.
  - apply (computeRMS_silence []); [constructor | vm_compute; reflexivity].
Defined.

(** *** What the two searches return *)

Lemma lags_inv (a b x : Z) rest :
  lags (IInt a) (IInt b) = x :: rest ->
  x = a /\ rest = lags (IInt (a + 1)) (IInt b) /\ a <= b.
Proof.
  intros H. destruct (Z.le_gt_cases a b) as [Hab|Hab].
  - rewrite (lags_cons a b Hab) in H. injection H as <- <-. auto.
  - unfold lags in H. replace (Z.to_nat (b - a + 1)) with 0%nat in H by lia.
    discriminate.
Qed.

Lemma lags_nil (a b : Z) : lags (IInt a) (IInt b) = [] -> b < a.
Proof.
  intros H. destruct (Z.le_gt_cases a b) as [Hab|Hab]; [|lia].
  rewrite (lags_cons a b Hab) in H. discriminate.
Qed.

Lemma walkRight_spec yin b : forall rest tau,
  rest = lags (IInt (tau + 1)) (IInt b) ->
  tau <= walkRight yin tau rest /\
  (walkRight yin tau rest = tau \/
   (get yin (walkRight yin tau rest) < get yin tau)%js = true) /\
  (b <= walkRight yin tau rest \/
   (get yin (walkRight yin tau rest + 1) < get yin (walkRight yin tau rest))%js
   = false).
Proof.
  induction rest as [|next rest IH]; intros tau Hr; simpl.
  - symmetry in Hr. apply lags_nil in Hr.
    split; [lia|]. split; [left; reflexivity | left; lia].
  - symmetry in Hr. apply lags_inv in Hr. destruct Hr as (-> & Hr & Hb).
    destruct (get yin (tau + 1) < get yin tau)%js eqn:E.
    + destruct (IH (tau + 1) Hr) as (H1 & H2 & H3).
      repeat split; [lia| |exact H3].
      right. destruct H2 as [-> | H2]; [exact E|].
      eapply lt_trans; eassumption.
    + split; [lia|]. split; [left; reflexivity | right; exact E].
Qed.

Lemma thresholdSearch_spec yin threshold b : forall taus a,
  taus = lags (IInt a) (IInt b) ->
  (thresholdSearch yin threshold taus = -1 /\
   forall k, In k taus -> (get yin k < threshold)%js = false) \/
  (a <= thresholdSearch yin threshold taus <= b /\
   (get yin (thresholdSearch yin threshold taus) < threshold)%js = true /\
   (thresholdSearch yin threshold taus = b \/
    (get yin (thresholdSearch yin threshold taus + 1)
     < get yin (thresholdSearch yin threshold taus))%js = false)).
Proof.
  induction taus as [|tau rest IH]; intros a Ht; simpl.
  - left. split; [reflexivity | intros k []].
  - symmetry in Ht. apply lags_inv in Ht. destruct Ht as (-> & Hr & Hab).
    destruct (get yin a < threshold)%js eqn:E.
    + right.
      destruct (walkRight_spec yin b rest a Hr) as (H1 & H2 & H3).
      pose proof (walkRight_in yin rest a) as Hin.
      assert (Hle : walkRight yin a rest <= b).
      { destruct Hin as [-> | Hin]; [exact Hab|].
        rewrite Hr in Hin |- *. apply in_lags in Hin. lia. }
      repeat split; [exact H1 | exact Hle | |].
      * destruct H2 as [-> | H2]; [exact E|]. eapply lt_trans; eassumption.
      * destruct H3 as [H3 | H3]; [left; lia | right; exact H3].
    + destruct (IH (a + 1) Hr) as [[H1 H2] | (H1 & H2 & H3)].
      * left. split; [exact H1|]. intros k [<- | Hk]; auto.
      * right. repeat split; try assumption; lia.
Qed.

Lemma fallback_fold_min yin : forall taus acc seen,
  let step := fun '(minVal, tauEstimate) tau =>
                if (get yin tau < minVal)%js then (get yin tau, tau)
                else (minVal, tauEstimate) in
  (forall k, In k seen -> (get yin k < fst acc)%js = false) ->
  (snd acc = -1 \/ fst acc = get yin (snd acc)) ->
  (forall k, In k (seen ++ taus) ->
     (get yin k < fst (fold_left step taus acc))%js = false) /\
  (snd (fold_left step taus acc) = -1 \/
   fst (fold_left step taus acc) = get yin (snd (fold_left step taus acc))).
Proof.
  induction taus as [|tau rest IH]; intros [minVal est] seen step Hseen Hacc.
  - simpl. rewrite app_nil_r. auto.
  - simpl. destruct (get yin tau < minVal)%js eqn:E.
    + destruct (IH (get yin tau, tau) (seen ++ [tau])) as [H1 H2].
      { intros k Hk. simpl.
        apply in_app_or in Hk. destruct Hk as [Hk | [<- | []]].
        - destruct (get yin k < get yin tau)%js eqn:E'; [|reflexivity].
          pose proof (Hseen k Hk) as Hs. simpl in Hs.
          rewrite (lt_trans _ _ _ E' E) in Hs. discriminate.
        - apply lt_irrefl. }
      { right. reflexivity. }
      rewrite <- app_assoc in H1. split; assumption.
    + destruct (IH (minVal, est) (seen ++ [tau])) as [H1 H2].
      { intros k Hk. apply in_app_or in Hk. destruct Hk as [Hk | [<- | []]];
          auto. }
      { exact Hacc. }
      rewrite <- app_assoc in H1. split; assumption.
Qed.

(** The lag the fallback selects is a global minimum of the CMND values on
    the lags searched: no searched lag has a strictly smaller value. *)
Lemma fallbackSearch_global_minimum yin taus k :
  fallbackSearch yin taus <> -1 ->
  In k taus ->
  (get yin k < get yin (fallbackSearch yin taus))%js = false.
Proof.
  intros Hsel Hk. unfold fallbackSearch in *.
  destruct (fallback_fold_min yin taus (Infinity, -1) []) as [H1 H2].
  - intros ? [].
  - left. reflexivity.
  - destruct H2 as [H2 | H2]; [contradiction|].
    rewrite <- H2. apply H1. exact Hk.
Qed.

(** X3: what the candidate lag is.  On lag bounds 2 <= a <= b, either the
    candidate has a CMND value below the threshold and the value at the
    next lag is not smaller (or the candidate is the last lag); or no lag of
    the range is below the threshold and the candidate is a global minimum
    of the range. *)
Theorem candidate_characterised yin threshold a b tau :
  2 <= a ->
  candidate yin threshold (IInt a) (IInt b) = Some tau ->
  a <= tau <= b /\
  (((get yin tau < threshold)%js = true /\
    (tau = b \/ (get yin (tau + 1) < get yin tau)%js = false)) \/
   ((forall k, a <= k <= b -> (get yin k < threshold)%js = false) /\
    (forall k, a <= k <= b -> (get yin k < get yin tau)%js = false))).
Proof.
  intros Ha Hc.
  pose proof (in_lags _ _ _ (candidate_in _ _ _ _ _ Hc)) as Hin.
  split; [exact Hin|].
  assert (Hall : forall k, a <= k <= b -> In k (lags (IInt a) (IInt b))).
  { intros k Hk. unfold lags. apply in_map_iff.
    exists (Z.to_nat (k - a)). split; [lia|]. apply in_seq. lia. }
  unfold candidate in Hc. cbv zeta in Hc.
  destruct (thresholdSearch_spec yin threshold b _ a eq_refl)
    as [[H1 H2] | (H1 & H2 & H3)].
  - rewrite H1, Z.eqb_refl in Hc.
    destruct (fallbackSearch yin (lags (IInt a) (IInt b)) =? -1) eqn:E;
      [discriminate|].
    injection Hc as <-. apply Z.eqb_neq in E. right. split.
    + intros k Hk. apply H2, Hall, Hk.
    + intros k Hk. apply fallbackSearch_global_minimum; auto.
  - replace (thresholdSearch yin threshold (lags (IInt a) (IInt b)) =? -1)
      with false in Hc by (symmetry; apply Z.eqb_neq; lia).
    injection Hc as <-. left. auto.
Qed.

Lemma candidate_characterised_witness :
  (get Samples.cmnd_alternating 2 < default_threshold)%js = true /\
  (get Samples.cmnd_alternating 3 < get Samples.cmnd_alternating 2)%js = false.
Proof.
  destruct (candidate_characterised Samples.cmnd_alternating
              default_threshold 2 20 2 ltac:(lia) eq_refl)
    as (_ & [(H1 & [H2 | H2]) | (H1 & _)]).
  - discriminate H2.
  - split; assumption.
  - exfalso.
    assert (H := H1 2 ltac:(lia)). vm_compute in H. discriminate H.
Defined.

End PitchExtras.

(* ================================================================== *)
(** ** Further properties of the MicPitch class                        *)
(* ================================================================== *)

Section GateFacts.
Import Js Mic.

(** The RMS of a silent block is below every positive [minRms], whatever
    the length of the block. *)
Lemma silence_below_minRms (buffer : list number) (minRms : number) :
  Forall (fun v => (v === of_Z 0)%js = true) buffer ->
  (of_Z 0 < minRms)%js = true ->
  (Pitch.computeRMS buffer >= minRms)%js = false.
Proof.
  intros Hz Hm. unfold Pitch.computeRMS.
  rewrite (sum_of_squares_silence _ Hz).
  generalize (of_nat (length buffer)). intros n.
  destruct minRms as [s|[|]| |[|] m e]; try discriminate;
    destruct n as [s'|s'| |s' m' e']; reflexivity.
Qed.

(** X4: a silent block never reaches the estimator.  With a positive
    [minRms], a cycle on samples that are all zero completes normally,
    clears the smoothed value, appends an absent entry and hands the absent
    value to every listener. *)
Theorem tick_on_silence (U : Type) (self : MicPitch U) input u an b c :
  _analyser self = Some an -> _buffer self = Some b -> _ctx self = Some c ->
  Forall (fun v => (v === of_Z 0)%js = true) (fill b (samples input)) ->
  (of_Z 0 < minRms (options self))%js = true ->
  rawEstimate self (fill b (samples input)) (sampleRate input) = Normal None /\
  tick self input u
  = (record self (fill b (samples input)) None (now input),
     fold_left (fun u cb => after (call cb None u)) (_listeners self) u,
     Normal tt) /\
  _emaFreq (fst (fst (tick self input u))) = None.
Proof.
  intros Ha Hb Hc Hz Hm.
  assert (Hr : rawEstimate self (fill b (samples input)) (sampleRate input)
               = Normal None).
  { unfold rawEstimate. rewrite (silence_below_minRms _ _ Hz Hm). reflexivity. }
  assert (Ht : tick self input u
               = (record self (fill b (samples input)) None (now input),
                  fold_left (fun u cb => after (call cb None u))
                    (_listeners self) u,
                  Normal tt)).
  { unfold tick. rewrite Ha, Hb, Hc, Hr. unfold _emit.
    rewrite emit_all_fold. reflexivity. }
  split; [exact Hr|]. split; [exact Ht|]. rewrite Ht. reflexivity.
Qed.

Lemma tick_on_silence_witness :
  _emaFreq (fst (fst (tick (Samples.pipeline (Some (of_Z 440))
                              Samples.history_440)
                         Samples.silence_at_1600 tt))) = None.
Proof.
  refine (proj2 (proj2 (tick_on_silence unit
            (Samples.pipeline (Some (of_Z 440)) Samples.history_440)
            Samples.silence_at_1600 tt 1%nat
            (repeat (S754_zero false) 2048) 0%nat
            eq_refl eq_refl eq_refl _ eq_refl))).
  apply Forall_forall. intros v Hv.
  change (fill (repeat (S754_zero false) 2048)
            (samples Samples.silence_at_1600))
    with (firstn 2048 (repeat (S754_zero false) 2048)
          ++ skipn 2048 (repeat (S754_zero false) 2048)) in Hv.
  rewrite firstn_skipn in Hv. apply repeat_spec in Hv. subst. reflexivity.
Defined.

(** X5: a work buffer shorter than 512 samples (an [fftSize] of 32 to 256)
    never yields a pitch: every cycle completes normally with an absent
    smoothed value. *)
Theorem tick_with_short_buffer (U : Type) (self : MicPitch U) input u an b c :
  _analyser self = Some an -> _buffer self = Some b -> _ctx self = Some c ->
  (length b < 512)%nat ->
  tick self input u
  = (record self (fill b (samples input)) None (now input),
     fold_left (fun u cb => after (call cb None u)) (_listeners self) u,
     Normal tt) /\
  _emaFreq (fst (fst (tick self input u))) = None.
Proof.
  intros Ha Hb Hc Hlen.
  assert (Hfill : length (fill b (samples input)) = length b).
  { unfold fill. rewrite length_app, length_firstn, length_skipn. lia. }
  assert (Hr : rawEstimate self (fill b (samples input)) (sampleRate input)
               = Normal None).
  { unfold rawEstimate.
    destruct (Pitch.computeRMS _ >= minRms (options self))%js; [|reflexivity].
    unfold Pitch.detectPitchYIN. rewrite Hfill.
    replace (Z.of_nat (length b) <? 512) with true
      by (symmetry; apply Z.ltb_lt; lia).
    reflexivity. }
  assert (Ht : tick self input u
               = (record self (fill b (samples input)) None (now input),
                  fold_left (fun u cb => after (call cb None u))
                    (_listeners self) u,
                  Normal tt)).
  { unfold tick. rewrite Ha, Hb, Hc, Hr. unfold _emit.
    rewrite emit_all_fold. reflexivity. }
  split; [exact Ht|]. rewrite Ht. reflexivity.
Qed.

Lemma tick_with_short_buffer_witness :
  _emaFreq (fst (fst (tick (Samples.pipeline_of_size 256 (Some (of_Z 440)) [])
                         Samples.alternating_at_0 tt))) = None.
Proof.
  refine (proj2 (tick_with_short_buffer unit
                   (Samples.pipeline_of_size 256 (Some (of_Z 440)) [])
                   Samples.alternating_at_0 tt 1%nat
                   (repeat (S754_zero false) 256) 0%nat
                   eq_refl eq_refl eq_refl _)).
  vm_compute. lia.
Defined.

End GateFacts.

Section LifecycleFacts.
Import Js Mic.

(** How [start] ends, case by case. *)
Lemma start_cases (U : Type) (self : MicPitch U) w :
  _running self = false ->
  (hasAudioContext w = false /\
   start self w = (w, self, Throw (Error "Web Audio API not available"))) \/
  (hasAudioContext w = true /\
   validFftSize (toUint32 (fftSize (options self))) = false /\
   start self w
   = (perform (CreateAnalyser (nextHandle w) (S (nextHandle w)))
        (snd (fresh (perform (NewAudioContext (nextHandle w))
                       (snd (fresh w))))),
      mkMicPitch (options self) (Some (nextHandle w)) (_stream self)
        (_source self) (Some (S (nextHandle w))) (_buffer self) (_timer self)
        (_listeners self) (_emaFreq self) (_history self) false
        (_deviceId self),
      Throw (DOMException "IndexSizeError"))) \/
  (hasAudioContext w = true /\
   validFftSize (toUint32 (fftSize (options self))) = true /\
   grantsMedia w (deviceConstraint (_deviceId self)) = false /\
   start self w
   = (perform (CreateAnalyser (nextHandle w) (S (nextHandle w)))
        (snd (fresh (perform (NewAudioContext (nextHandle w))
                       (snd (fresh w))))),
      mkMicPitch (options self) (Some (nextHandle w)) (_stream self)
        (_source self) (Some (S (nextHandle w)))
        (Some (repeat (S754_zero false)
                 (Z.to_nat (toUint32 (fftSize (options self))))))
        (_timer self) (_listeners self) (_emaFreq self) (_history self) false
        (_deviceId self),
      Throw (DOMException "NotAllowedError"))) \/
  (hasAudioContext w = true /\
   validFftSize (toUint32 (fftSize (options self))) = true /\
   grantsMedia w (deviceConstraint (_deviceId self)) = true /\
   exists w',
     start self w
     = (w',
        mkMicPitch (options self) (Some (nextHandle w))
          (Some (S (S (nextHandle w)))) (Some (S (S (S (nextHandle w)))))
          (Some (S (nextHandle w)))
          (Some (repeat (S754_zero false)
                   (Z.to_nat (toUint32 (fftSize (options self))))))
          (Some (S (S (S (S (nextHandle w)))))) (_listeners self)
          (_emaFreq self) (_history self) true (_deviceId self),
        Normal tt) /\
     hasAudioContext w' = hasAudioContext w /\
     grantsMedia w' = grantsMedia w /\
     nextHandle w' = S (S (S (S (S (nextHandle w))))) /\
     effects w'
     = [SetInterval (S (S (S (S (nextHandle w)))))
          (Math_max (of_Z 10) (updateIntervalMs (options self)));
        Connect (S (S (S (nextHandle w)))) (S (nextHandle w));
        CreateMediaStreamSource (nextHandle w) (S (S (nextHandle w)))
          (S (S (S (nextHandle w))))]
       ++ match _stream self with Some s => [StopTracks s] | None => [] end
       ++ match _source self with Some s => [Disconnect s] | None => [] end
       ++ [GetUserMedia (deviceConstraint (_deviceId self))
             (S (S (nextHandle w)));
           CreateAnalyser (nextHandle w) (S (nextHandle w));
           NewAudioContext (nextHandle w)]
       ++ effects w).
Proof.
  intros Hrun. unfold start. rewrite Hrun.
  destruct (hasAudioContext w) eqn:Haudio; cbn [negb]; [|left; auto].
  right.
  cbn [fresh perform nextHandle hasAudioContext grantsMedia effects options
         fst snd].
  destruct (validFftSize (toUint32 (fftSize (options self)))) eqn:Hfft;
    cbn [negb]; [|left; auto].
  right. unfold _replaceStream.
  cbn [grantsMedia _deviceId fresh perform nextHandle hasAudioContext
         effects _source _stream _ctx _analyser options _buffer
         _timer _listeners _emaFreq _history _running].
  destruct (grantsMedia w (deviceConstraint (_deviceId self))) eqn:Hgrant;
    cbn [negb]; [|left; auto].
  right. repeat split; try reflexivity.
  unfold _loop.
  destruct (_source self), (_stream self);
    eexists; (split; [reflexivity|]); cbn;
    rewrite Haudio; repeat split; reflexivity.
Qed.

(** X6: [start] either leaves the instance running or raises and leaves it
    not running.  It completes normally exactly when the instance is
    already running, or Web Audio exists, [fftSize] is a size the analyser
    accepts and the microphone request is granted; when it raises, the
    smoothed value, history, options, listeners and timer are untouched. *)
Theorem start_runs_or_raises (U : Type) (self : MicPitch U) w :
  (snd (start self w) = Normal tt <->
   _running self = true \/
   (hasAudioContext w = true /\
    validFftSize (toUint32 (fftSize (options self))) = true /\
    grantsMedia w (deviceConstraint (_deviceId self)) = true)) /\
  (snd (start self w) = Normal tt ->
   _running (snd (fst (start self w))) = true) /\
  (forall e, snd (start self w) = Throw e ->
   _running (snd (fst (start self w))) = false /\
   pipelineState (snd (fst (start self w))) = pipelineState self /\
   _listeners (snd (fst (start self w))) = _listeners self /\
   _timer (snd (fst (start self w))) = _timer self).
Proof.
  destruct (_running self) eqn:Hrun.
  - unfold start. rewrite Hrun. cbn [fst snd].
    split; [tauto|]. split; [auto|]. intros e H. discriminate.
  - destruct (start_cases U self w Hrun)
      as [(Ha & ->) | [(Ha & Hf & ->) | [(Ha & Hf & Hg & ->)
         | (Ha & Hf & Hg & w' & -> & _)]]]; cbn [fst snd].
    + split; [split; [discriminate|]|].
      * intros [H | (H & _)]; congruence.
      * split; [discriminate|]. intros e _. unfold pipelineState.
        rewrite Hrun. auto.
    + split; [split; [discriminate|]|].
      * intros [H | (_ & H & _)]; congruence.
      * split; [discriminate|]. intros e _. unfold pipelineState. cbn.
        rewrite Hrun. auto.
    + split; [split; [discriminate|]|].
      * intros [H | (_ & _ & H)]; congruence.
      * split; [discriminate|]. intros e _. unfold pipelineState. cbn.
        rewrite Hrun. auto.
    + split; [split; auto|]. split; [reflexivity|]. intros e H. discriminate.
Qed.

Lemma start_runs_or_raises_witness :
  snd (start Samples.idle Samples.browser) = Normal tt /\
  _running (snd (fst (start Samples.idle Samples.browser))) = true /\
  _running (snd (fst (start Samples.idle Samples.refusing_browser))) = false.
Proof.
  destruct (start_runs_or_raises unit Samples.idle Samples.browser)
    as (Hiff & Hrun & _).
  destruct (start_runs_or_raises unit Samples.idle Samples.refusing_browser)
    as (_ & _ & Hfail).
  assert (Hok : snd (start Samples.idle Samples.browser) = Normal tt).
  { apply Hiff. right. repeat split; reflexivity. }
  split; [exact Hok|]. split; [exact (Hrun Hok)|].
  exact (proj1 (Hfail (DOMException "NotAllowedError") eq_refl)).
Defined.

(** X7: every resource a successful [start] acquires on a new instance is
    released by the following [stop], and the instance is back in its
    constructed state except for the stale [_source] node it keeps. *)
Theorem stop_releases_what_start_acquired (U : Type) opts
    (self : MicPitch U) w w1 s1 :
  constructor opts = Normal self ->
  start self w = (w1, s1, Normal tt) ->
  exists ctx analyser stream source timer period,
    effects w1
    = [SetInterval timer period; Connect source analyser;
       CreateMediaStreamSource ctx stream source;
       GetUserMedia (deviceConstraint (_deviceId self)) stream;
       CreateAnalyser ctx analyser; NewAudioContext ctx] ++ effects w /\
    effects (fst (stop s1 w1))
    = [CloseContext ctx; StopTracks stream; Disconnect source;
       ClearInterval timer] ++ effects w1 /\
    snd (stop s1 w1)
    = mkMicPitch (options self) None None (Some source) None None None
        (_listeners self) None [] false (_deviceId self) /\
    pipelineState (snd (stop s1 w1)) = pipelineState self.
Proof.
  intros Hnew Hstart. injection Hnew as <-.
  match type of Hstart with
  | start ?s w = _ =>
      destruct (start_cases U s w eq_refl)
        as [(_ & E) | [(_ & _ & E) | [(_ & _ & _ & E)
           | (_ & _ & _ & w' & E & _ & _ & _ & Heff)]]];
        rewrite E in Hstart; try discriminate
  end.
  injection Hstart as <- <-. cbn in Heff.
  do 6 eexists. split; [exact Heff|].
  unfold stop. cbn. repeat split; reflexivity.
Qed.

Lemma stop_releases_what_start_acquired_witness :
  exists ctx analyser stream source timer period,
    effects (fst (fst (start Samples.idle Samples.browser)))
    = [SetInterval timer period; Connect source analyser;
       CreateMediaStreamSource ctx stream source;
       GetUserMedia None stream;
       CreateAnalyser ctx analyser; NewAudioContext ctx] /\
    effects (fst (stop (snd (fst (start Samples.idle Samples.browser)))
                    (fst (fst (start Samples.idle Samples.browser)))))
    = [CloseContext ctx; StopTracks stream; Disconnect source;
       ClearInterval timer]
      ++ effects (fst (fst (start Samples.idle Samples.browser))) /\
    snd (stop (snd (fst (start Samples.idle Samples.browser)))
           (fst (fst (start Samples.idle Samples.browser))))
    = mkMicPitch (options Samples.idle) None None (Some source) None None
        None [] None [] false None /\
    pipelineState
      (snd (stop (snd (fst (start Samples.idle Samples.browser)))
              (fst (fst (start Samples.idle Samples.browser)))))
    = pipelineState Samples.idle.
Proof.
  exact (stop_releases_what_start_acquired unit no_options Samples.idle
           Samples.browser
           (fst (fst (start Samples.idle Samples.browser)))
           (snd (fst (start Samples.idle Samples.browser)))
           eq_refl eq_refl).
Defined.

(** X8: a [start] that raises after Web Audio was found leaves the new
    AudioContext open: it is stored in [_ctx], nothing in [start] closes
    it, and a following [stop] does nothing at all because the instance is
    not running. *)
Theorem failed_start_keeps_context (U : Type) (self : MicPitch U) w w1 s1 e :
  _running self = false -> hasAudioContext w = true ->
  start self w = (w1, s1, Throw e) ->
  _ctx s1 = Some (nextHandle w) /\
  effects w1
  = [CreateAnalyser (nextHandle w) (S (nextHandle w));
     NewAudioContext (nextHandle w)] ++ effects w /\
  _running s1 = false /\
  stop s1 w1 = (w1, s1).
Proof.
  intros Hrun Haudio Hstart.
  destruct (start_cases U self w Hrun)
    as [(Ha & E) | [(_ & _ & E) | [(_ & _ & _ & E)
       | (_ & _ & _ & w' & E & _)]]];
    rewrite E in Hstart; try congruence;
    injection Hstart as <- <- <-; repeat split; reflexivity.
Qed.

Lemma failed_start_keeps_context_witness :
  _ctx (snd (fst (start Samples.idle Samples.refusing_browser))) = Some 0%nat /\
  effects (fst (fst (start Samples.idle Samples.refusing_browser)))
  = [CreateAnalyser 0%nat 1%nat; NewAudioContext 0%nat] /\
  _running (snd (fst (start Samples.idle Samples.refusing_browser))) = false /\
  stop (snd (fst (start Samples.idle Samples.refusing_browser)))
    (fst (fst (start Samples.idle Samples.refusing_browser)))
  = fst (start Samples.idle Samples.refusing_browser).
Proof.
  exact (failed_start_keeps_context unit Samples.idle
           Samples.refusing_browser
           (fst (fst (start Samples.idle Samples.refusing_browser)))
           (snd (fst (start Samples.idle Samples.refusing_browser)))
           (DOMException "NotAllowedError") eq_refl eq_refl eq_refl).
Defined.

(** X9: [stop] on a running instance discards the state: the smoothed value
    and the history are gone, so every average query is absent, and a run
    of [tick] that still arrives does nothing; options and listeners are
    kept. *)
Theorem stop_discards_state (U : Type) (self : MicPitch U) w :
  _running self = true ->
  pipelineState (snd (stop self w)) = (None, [], false, options self) /\
  _listeners (snd (stop self w)) = _listeners self /\
  (forall seconds nowT,
      getAverageFrequency (snd (stop self w)) seconds nowT = None) /\
  (forall input u,
      tick (snd (stop self w)) input u = (snd (stop self w), u, Normal tt)).
Proof.
  intros Hrun. unfold stop. rewrite Hrun. cbn [negb snd].
  repeat split.
Qed.

Lemma stop_discards_state_witness :
  getAverageFrequency
    (snd (stop (Samples.pipeline (Some (of_Z 440)) Samples.history_440)
            Samples.browser))
    None (of_Z 900) = None /\
  tick (snd (stop (Samples.pipeline (Some (of_Z 440)) Samples.history_440)
               Samples.browser))
    Samples.silence_at_1600 tt
  = (snd (stop (Samples.pipeline (Some (of_Z 440)) Samples.history_440)
            Samples.browser), tt, Normal tt).
Proof.
  destruct (stop_discards_state unit
              (Samples.pipeline (Some (of_Z 440)) Samples.history_440)
              Samples.browser eq_refl) as (_ & _ & Havg & Htick).
  split; [apply Havg | apply Htick].
Defined.

End LifecycleFacts.

Section SubscriptionFacts.
Import Js Mic.

Lemma has_listener_in (U : Type) (cb : listener U) ls :
  has_listener cb ls = true <-> In (lid cb) (map lid ls).
Proof.
  unfold has_listener. rewrite existsb_exists, in_map_iff. split.
  - intros (l & Hl & E). apply Nat.eqb_eq in E. eauto.
  - intros (l & E & Hl). exists l. split; [exact Hl|].
    apply Nat.eqb_eq. exact E.
Qed.

Lemma filter_other_listeners (U : Type) (cb : listener U) ls :
  has_listener cb ls = false ->
  filter (fun l => negb (Nat.eqb (lid l) (lid cb))) ls = ls.
Proof.
  unfold has_listener. induction ls as [|l rest IH]; simpl; [reflexivity|].
  intros H. apply orb_false_iff in H. destruct H as [H1 H2].
  rewrite H1. simpl. rewrite (IH H2). reflexivity.
Qed.

Lemma with_own_listeners (U : Type) (self : MicPitch U) :
  with_listeners self (_listeners self) = self.
Proof. destruct self; reflexivity. Qed.

(** X10: subscribing.  A callback subscribed twice is registered once.  A
    callback that was not registered is called after all the earlier
    listeners, with the same value, on the state they left. *)
Theorem onFrequency_registers_once (U : Type) (self : MicPitch U)
    (cb : listener U) :
  onFrequency (onFrequency self cb) cb = onFrequency self cb /\
  (has_listener cb (_listeners self) = false ->
   forall freq u,
     _emit (onFrequency self cb) freq u
     = match _emit self freq u with
       | Normal u' => Normal (after (call cb freq u'))
       | Throw e => Throw e
       end).
Proof.
  split.
  - destruct (has_listener cb (_listeners self)) eqn:E.
    + unfold onFrequency. rewrite !E. reflexivity.
    + unfold onFrequency. rewrite E. cbn [with_listeners _listeners].
      replace (has_listener cb (_listeners self ++ [cb])) with true;
        [reflexivity|].
      symmetry. apply has_listener_in. rewrite map_app. apply in_or_app.
      right. left. reflexivity.
  - intros H freq u. unfold onFrequency. rewrite H.
    unfold _emit. cbn [with_listeners _listeners].
    rewrite !emit_all_fold, fold_left_app. reflexivity.
Qed.

Lemma onFrequency_registers_once_witness :
  _emit (onFrequency Samples.counting (Samples.counter 2))
    (Some (of_Z 440)) 0%nat
  = Normal 2%nat.
Proof.
  rewrite (proj2 (onFrequency_registers_once nat Samples.counting
                    (Samples.counter 2)) eq_refl).
  reflexivity.
Defined.

(** X11: unsubscribing.  After [offFrequency(cb)] the callback is not
    registered; unsubscribing a callback that is not registered changes
    nothing; and unsubscribing right after subscribing a new callback
    gives back the instance as it was. *)
Theorem offFrequency_unregisters (U : Type) (self : MicPitch U)
    (cb : listener U) :
  has_listener cb (_listeners (offFrequency self cb)) = false /\
  (has_listener cb (_listeners self) = false ->
   offFrequency self cb = self /\
   offFrequency (onFrequency self cb) cb = self).
Proof.
  split.
  - unfold offFrequency. cbn [with_listeners _listeners].
    destruct (has_listener cb (filter _ (_listeners self))) eqn:E;
      [|reflexivity].
    apply has_listener_in, in_map_iff in E. destruct E as (l & E & Hl).
    apply filter_In in Hl. destruct Hl as [_ Hl].
    rewrite E, Nat.eqb_refl in Hl. discriminate.
  - intros H. split.
    + unfold offFrequency. rewrite (filter_other_listeners U cb _ H).
      apply with_own_listeners.
    + unfold onFrequency. rewrite H. unfold offFrequency.
      cbn [with_listeners _listeners options _ctx _stream _source _analyser
             _buffer _timer _emaFreq _history _running _deviceId].
      rewrite filter_app, (filter_other_listeners U cb _ H). simpl.
      rewrite Nat.eqb_refl. simpl. rewrite app_nil_r.
      destruct self; reflexivity.
Qed.

Lemma offFrequency_unregisters_witness :
  offFrequency (onFrequency Samples.idle
                  (mkListener 7%nat (fun _ u => Returned u)))
    (mkListener 7%nat (fun _ u => Returned u))
  = Samples.idle.
Proof.
  exact (proj2 (proj2 (offFrequency_unregisters unit Samples.idle
                         (mkListener 7%nat (fun _ u => Returned u)))
                  eq_refl)).
Defined.

End SubscriptionFacts.

Section DeviceFacts.
Import Js Mic.

Lemma deviceConstraint_idempotent d :
  deviceConstraint (deviceConstraint d) = deviceConstraint d.
Proof. destruct d as [[|c s]|]; reflexivity. Qed.

(** X12: [setDevice] on a stopped instance only records the choice: the
    browser is not touched, an empty id stands for the default device, and
    the next successful [start] requests exactly the recorded device. *)
Theorem setDevice_when_stopped (U : Type) (self : MicPitch U) w d :
  _running self = false ->
  setDevice self w d
  = (w,
     mkMicPitch (options self) (_ctx self) (_stream self) (_source self)
       (_analyser self) (_buffer self) (_timer self) (_listeners self)
       (_emaFreq self) (_history self) false (deviceConstraint d),
     Normal tt) /\
  deviceConstraint d <> Some EmptyString /\
  (forall w1 s1,
      start (snd (fst (setDevice self w d))) w = (w1, s1, Normal tt) ->
      In (GetUserMedia (deviceConstraint d) (S (S (nextHandle w))))
        (effects w1)).
Proof.
  intros Hrun.
  assert (E : setDevice self w d
              = (w,
                 mkMicPitch (options self) (_ctx self) (_stream self)
                   (_source self) (_analyser self) (_buffer self)
                   (_timer self) (_listeners self) (_emaFreq self)
                   (_history self) false (deviceConstraint d),
                 Normal tt)).
  { unfold setDevice. cbn [_running]. rewrite Hrun. reflexivity. }
  split; [exact E|]. split.
  - destruct d as [[|c s]|]; discriminate.
  - rewrite E. cbn [fst snd]. intros w1 s1 Hs.
    match type of Hs with
    | start ?s w = _ =>
        destruct (start_cases U s w eq_refl)
          as [(_ & E') | [(_ & _ & E') | [(_ & _ & _ & E')
             | (_ & _ & _ & w' & E' & _ & _ & _ & Heff)]]];
          rewrite E' in Hs; try discriminate
    end.
    injection Hs as <- <-. rewrite Heff.
    cbn [_deviceId _stream _source]. rewrite deviceConstraint_idempotent.
    apply in_or_app. right. apply in_or_app. right.
    apply in_or_app. right. apply in_or_app. left. left. reflexivity.
Qed.

Lemma setDevice_when_stopped_witness :
  _deviceId (snd (fst (setDevice Samples.idle Samples.browser (Some EmptyString))))
  = None /\
  In (GetUserMedia (Some "usb"%string) 2%nat)
    (effects
       (fst (fst (start
                    (snd (fst (setDevice Samples.idle Samples.browser
                                 (Some "usb"%string))))
                    Samples.browser)))).
Proof.
  split.
  - rewrite (proj1 (setDevice_when_stopped unit Samples.idle Samples.browser
                      (Some EmptyString) eq_refl)).
    reflexivity.
  - apply (proj2 (proj2 (setDevice_when_stopped unit Samples.idle
                           Samples.browser (Some "usb"%string) eq_refl))
             _ (snd (fst (start
                            (snd (fst (setDevice Samples.idle Samples.browser
                                         (Some "usb"%string))))
                            Samples.browser)))).
    vm_compute. reflexivity.
Defined.

(** X13: [setDevice] on a running instance swaps the stream in place when
    the request is granted: the new stream is opened first, then the old
    source is disconnected, the old tracks are stopped and a new source is
    connected to the same analyser; context, analyser, buffer, timer,
    smoothed value, history and listeners are kept. *)
Theorem setDevice_swaps_stream (U : Type) (self : MicPitch U) w d
    ctx analyser source stream :
  _running self = true ->
  _ctx self = Some ctx -> _analyser self = Some analyser ->
  _source self = Some source -> _stream self = Some stream ->
  grantsMedia w (deviceConstraint d) = true ->
  setDevice self w d
  = (mkBrowser (hasAudioContext w) (grantsMedia w) (S (S (nextHandle w)))
       ([Connect (S (nextHandle w)) analyser;
         CreateMediaStreamSource ctx (nextHandle w) (S (nextHandle w));
         StopTracks stream; Disconnect source;
         GetUserMedia (deviceConstraint d) (nextHandle w)] ++ effects w),
     mkMicPitch (options self) (Some ctx) (Some (nextHandle w))
       (Some (S (nextHandle w))) (Some analyser) (_buffer self)
       (_timer self) (_listeners self) (_emaFreq self) (_history self) true
       (deviceConstraint d),
     Normal tt).
Proof.
  intros Hrun Hc Ha Hso Hst Hg. unfold setDevice. cbn [_running].
  rewrite Hrun. unfold _replaceStream.
  cbn [_deviceId _source _stream _ctx _analyser options _buffer _timer
         _listeners _emaFreq _history _running].
  rewrite deviceConstraint_idempotent, Hg, Hso, Hst, Hc, Ha, ?Hrun.
  reflexivity.
Qed.

Lemma setDevice_swaps_stream_witness :
  effects (fst (fst (setDevice (Samples.pipeline None []) Samples.browser
                       (Some "usb"%string))))
  = [Connect 1%nat 1%nat; CreateMediaStreamSource 0%nat 0%nat 1%nat;
     StopTracks 2%nat; Disconnect 3%nat; GetUserMedia (Some "usb"%string) 0%nat].
Proof.
  rewrite (setDevice_swaps_stream unit (Samples.pipeline None [])
             Samples.browser (Some "usb"%string) 0%nat 1%nat 3%nat 2%nat
             eq_refl eq_refl eq_refl eq_refl eq_refl eq_refl).
  reflexivity.
Defined.

(** X14: when the request is refused, [setDevice] on a running instance
    raises with the browser untouched and the old stream, source and
    pipeline state still in place; only [_deviceId] has already changed. *)
Theorem setDevice_refused (U : Type) (self : MicPitch U) w d :
  _running self = true ->
  grantsMedia w (deviceConstraint d) = false ->
  setDevice self w d
  = (w,
     mkMicPitch (options self) (_ctx self) (_stream self) (_source self)
       (_analyser self) (_buffer self) (_timer self) (_listeners self)
       (_emaFreq self) (_history self) true (deviceConstraint d),
     Throw (DOMException "NotAllowedError")).
Proof.
  intros Hrun Hg. unfold setDevice. cbn [_running]. rewrite Hrun.
  unfold _replaceStream. cbn [_deviceId].
  rewrite deviceConstraint_idempotent, Hg. reflexivity.
Qed.

Lemma setDevice_refused_witness :
  snd (setDevice (Samples.pipeline None []) Samples.refusing_browser
         (Some "usb"%string))
  = Throw (DOMException "NotAllowedError") /\
  _stream (snd (fst (setDevice (Samples.pipeline None [])
                       Samples.refusing_browser (Some "usb"%string))))
  = Some 2%nat /\
  _deviceId (snd (fst (setDevice (Samples.pipeline None [])
                         Samples.refusing_browser (Some "usb"%string))))
  = Some "usb"%string.
Proof.
  rewrite (setDevice_refused unit (Samples.pipeline None [])
             Samples.refusing_browser (Some "usb"%string) eq_refl eq_refl).
  repeat split.
Defined.



End DeviceFacts.

Section ListDevices.
Import Js Devices.

Lemma combine_seq_snd {A : Type} (l : list A) n :
  map snd (combine (seq n (length l)) l) = l.
Proof.
  revert n. induction l as [|x l IH]; intros n; simpl; [reflexivity|].
  rewrite IH. reflexivity.
Qed.

Lemma labelOr_not_empty label i : labelOr label i <> EmptyString.
Proof. destruct label; simpl; discriminate. Qed.

(** X16: [listInputDevices] lists exactly the [audioinput] devices, in the
    order the browser reports them, with their device and group ids
    unchanged; every label it returns is non-empty (the browser's label when
    it has one); and without [enumerateDevices] the list is empty. *)
Theorem listInputDevices_lists_inputs (devices : list MediaDeviceInfo.t) :
  listInputDevices None = Normal [] /\
  exists inputs,
    listInputDevices (Some (Normal devices)) = Normal inputs /\
    map deviceId inputs
    = map MediaDeviceInfo.deviceId
        (filter (fun d => String.eqb (MediaDeviceInfo.kind d) "audioinput")
           devices) /\
    map groupId inputs
    = map MediaDeviceInfo.groupId
        (filter (fun d => String.eqb (MediaDeviceInfo.kind d) "audioinput")
           devices) /\
    Forall (fun d => label d <> EmptyString) inputs /\
    Forall2 (fun d i => MediaDeviceInfo.label d <> EmptyString ->
                        label i = MediaDeviceInfo.label d)
      (filter (fun d => String.eqb (MediaDeviceInfo.kind d) "audioinput")
         devices)
      inputs.
Proof.
  split; [reflexivity|].
  eexists. split; [reflexivity|].
  generalize (filter (fun d => String.eqb (MediaDeviceInfo.kind d) "audioinput")
                devices).
  intros l. generalize 0%nat.
  induction l as [|d l IH]; intros n; simpl.
  - repeat split; constructor.
  - destruct (IH (S n)) as (H1 & H2 & H3 & H4).
    repeat split.
    + rewrite H1. reflexivity.
    + rewrite H2. reflexivity.
    + constructor; [apply labelOr_not_empty | exact H3].
    + constructor; [|exact H4].
      simpl. destruct (MediaDeviceInfo.label d); [congruence | reflexivity].
Qed.

(** The unlabelled second microphone is listed as "Microphone 2". *)
Example listInputDevices_some_devices :
  listInputDevices (Some (Normal Samples.some_devices))
  = Normal [mkInputDevice "mic0" "Built-in" "g0";
            mkInputDevice "mic1" "Microphone 2" "g2"].
Proof. reflexivity. Qed.

End ListDevices.

Section RunFacts.
Import Js Mic.

Lemma validFftSize_bounds n : validFftSize n = true -> 32 <= n <= 32768.
Proof.
  unfold validFftSize. cbn [existsb]. intros H.
  repeat (apply orb_true_iff in H; destruct H as [H | H];
          [apply Z.eqb_eq in H; lia|]).
  discriminate.
Qed.

Lemma fill_length (buffer : Float32Array) data :
  length (fill buffer data) = length buffer.
Proof.
  unfold fill. rewrite length_app, length_firstn, length_skipn. lia.
Qed.

Lemma NoDup_snoc {A : Type} (l : list A) x :
  NoDup l -> ~ In x l -> NoDup (l ++ [x]).
Proof.
  induction 1 as [|y l Hy Hl IH]; intros Hx; simpl.
  - constructor; [intros [] | constructor].
  - constructor.
    + intros Hin. apply in_app_or in Hin. destruct Hin as [Hin | [<- | []]].
      * contradiction.
      * apply Hx. left. reflexivity.
    + apply IH. intros Hin. apply Hx. right. exact Hin.
Qed.

Lemma NoDup_map_filter {A B : Type} (g : A -> B) (p : A -> bool) l :
  NoDup (map g l) -> NoDup (map g (filter p l)).
Proof.
  induction l as [|x l IH]; simpl; intros H; [constructor|].
  inversion H as [|? ? Hx Hl]; subst.
  destruct (p x); simpl; [|apply IH; exact Hl].
  constructor; [|apply IH; exact Hl].
  intros Hin. apply Hx. apply in_map_iff in Hin.
  destruct Hin as (y & E & Hy). apply filter_In in Hy.
  apply in_map_iff. exists y. tauto.
Qed.

Lemma consistent_stopped (U : Type) (s : MicPitch U) :
  _running s = false -> _emaFreq s = None -> _history s = [] ->
  _timer s = None -> NoDup (map lid (_listeners s)) -> consistent s.
Proof.
  intros Hr He Hh Ht Hl. split; [auto|]. split; [congruence | exact Hl].
Qed.

Lemma consistent_same (U : Type) (s s' : MicPitch U) :
  _running s' = _running s -> _emaFreq s' = _emaFreq s ->
  _history s' = _history s -> _timer s' = _timer s -> _ctx s' = _ctx s ->
  _analyser s' = _analyser s ->
  option_map (@length number) (_buffer s')
  = option_map (@length number) (_buffer s) ->
  options s' = options s -> _listeners s' = _listeners s ->
  consistent s -> consistent s'.
Proof.
  intros Hr He Hh Ht Hc Ha Hb Ho Hl (I1 & I2 & I3).
  unfold consistent. rewrite Hr, He, Hh, Ht, Hc, Ha, Ho, Hl.
  split; [exact I1|]. split; [|exact I3].
  intros Hrun. destruct (I2 Hrun) as (c & a & t & b & E1 & E2 & E3 & E4 & E5 & E6).
  rewrite E4 in Hb. destruct (_buffer s') as [b'|]; [|discriminate].
  injection Hb as Hb.
  exists c, a, t, b'. repeat split; try assumption. congruence.
Qed.

(** X17: the invariant of runs.  Whatever sequence of [start], [stop],
    [onFrequency], [offFrequency], [setDevice] and timer runs of [tick] an
    instance goes through, a stopped instance has no smoothed value, no
    history and no timer; a running one has its timer, context, analyser and
    a work buffer of [fftSize] samples; and no listener is registered
    twice. *)
Theorem reachable_consistent (U : Type) (s : Browser * MicPitch U * U) :
  reachable s -> consistent (snd (fst s)).
Proof.
  induction 1 as [opts w u self Hnew | a w self u Hreach IH Hen].
  - injection Hnew as <-. apply consistent_stopped; try reflexivity.
    constructor.
  - cbn [fst snd] in IH. destruct a as [| |input|cb|cb|d|audio grants];
      cbn [exec].
    + (* start *)
      destruct (_running self) eqn:Hrun.
      * unfold start. rewrite Hrun. exact IH.
      * destruct IH as (I1 & _ & I3). destruct (I1 Hrun) as (He & Hh & Ht).
        destruct (start_cases U self w Hrun)
          as [(_ & ->) | [(_ & _ & ->) | [(_ & _ & _ & ->)
             | (_ & Hf & _ & w' & -> & _)]]]; cbn [fst snd].
        -- apply consistent_stopped; cbn; auto.
        -- apply consistent_stopped; cbn; auto.
        -- apply consistent_stopped; cbn; auto.
        -- split; [discriminate|]. split; [|exact I3].
           intros _. do 4 eexists. repeat split; try reflexivity; [|exact Hf].
           cbn [_buffer options]. rewrite repeat_length.
           apply Z2Nat.id. apply validFftSize_bounds in Hf. lia.
    + (* stop *)
      unfold stop. destruct (_running self) eqn:Hrun; cbn [negb fst snd].
      * apply consistent_stopped; try reflexivity. apply IH.
      * exact IH.
    + (* tick *)
      cbn [enabled] in Hen.
      destruct (_running self) eqn:Hrun.
      2:{ destruct IH as (I1 & _). destruct (I1 Hrun) as (_ & _ & Ht).
          rewrite Ht in Hen. discriminate. }
      pose proof IH as (_ & I2 & _).
      destruct (I2 Hrun) as (c & an & tm & b & Ec & Ea & Et & Eb & _).
      unfold tick. rewrite Ea, Eb, Ec.
      destruct (rawEstimate self (fill b (samples input)) (sampleRate input))
        as [freq|e]; [unfold _emit; rewrite emit_all_fold|]; cbn [fst snd].
      * destruct IH as (I1 & I2' & I3).
        split; [cbn; intros H'; congruence|]. split; [|exact I3].
        intros _. exists c, an, tm, (fill b (samples input)).
        destruct (I2' Hrun) as (c' & an' & tm' & b' & _ & _ & _ & Eb' & El & Ev).
        rewrite Eb in Eb'. injection Eb' as <-.
        cbn. rewrite fill_length. repeat split; assumption.
      * eapply consistent_same; [| | | | | | | | |exact IH];
          cbn; rewrite ?Eb; cbn; rewrite ?fill_length; congruence.
    + (* onFrequency *)
      cbn [fst snd]. unfold onFrequency.
      destruct (has_listener cb (_listeners self)) eqn:Hcb; [exact IH|].
      destruct IH as (I1 & I2 & I3).
      split; [exact I1|]. split; [exact I2|].
      cbn [with_listeners _listeners]. rewrite map_app. simpl.
      apply NoDup_snoc; [exact I3|].
      intros Hin. apply has_listener_in in Hin. congruence.
    + (* offFrequency *)
      cbn [fst snd]. destruct IH as (I1 & I2 & I3).
      split; [exact I1|]. split; [exact I2|].
      unfold offFrequency. cbn [with_listeners _listeners].
      apply NoDup_map_filter. exact I3.
    + (* setDevice *)
      unfold setDevice. cbn [_running].
      destruct (_running self) eqn:Hrun.
      * unfold _replaceStream. cbn [_deviceId].
        destruct (grantsMedia w _); cbn [negb].
        -- cbn [_ctx _analyser fresh perform].
           destruct (_ctx self) eqn:Ec, (_analyser self) eqn:Ea;
             cbn [fst snd];
             (eapply consistent_same; [| | | | | | | | |exact IH];
              cbn; congruence).
        -- cbn [fst snd].
           eapply consistent_same; [| | | | | | | | |exact IH]; cbn;
             congruence.
      * cbn [fst snd].
        eapply consistent_same; [| | | | | | | | |exact IH]; cbn; congruence.
    + (* the browser changes *)
      exact IH.
Qed.

Lemma reachable_step (U : Type) (a : action U) (s : Browser * MicPitch U * U) :
  reachable s -> enabled a (snd (fst s)) = true -> reachable (exec a s).
Proof. destruct s as [[w self] u]. apply reach_step. Qed.

Lemma reachable_consistent_witness :
  consistent
    (snd (fst (exec Stop
                 (exec (Tick Samples.silence_at_1600)
                    (exec Start (Samples.browser, Samples.idle, tt)))))).
Proof.
  apply (reachable_consistent unit).
  apply reachable_step; [|reflexivity].
  apply reachable_step; [|reflexivity].
  apply reachable_step; [|reflexivity].
  apply (reach_new unit no_options). reflexivity.
Defined.

End RunFacts.

Section CycleFacts.
Import Js Mic.

Lemma le_refl (x : number) : isNaN x = false -> le x x = true.
Proof. intros H. rewrite (le_negb_lt _ _ H H), lt_irrefl. reflexivity. Qed.

Lemma lt_le_trans (a b c : number) :
  lt a b = true -> le b c = true -> lt a c = true.
Proof.
  intros H1 H2.
  destruct (lt_not_nan _ _ H1) as [Ha _].
  destruct (le_not_nan _ _ H2) as [_ Hc].
  destruct (lt a c) eqn:E; [reflexivity|].
  assert (Hca : le c a = true) by (rewrite (le_negb_lt _ _ Hc Ha), E; reflexivity).
  rewrite (le_not_gt _ _ (le_trans _ _ _ H2 Hca)) in H1. discriminate.
Qed.

(** X18: a cycle completes normally.  With options 0 < minFreq < maxFreq, a
    finite sample rate and a context whenever there is an analyser (as in
    every state of a run), [tick] raises nothing: neither the estimator nor
    a listener can make it fail. *)
Theorem tick_completes_normally (U : Type) (self : MicPitch U) input u :
  (_analyser self <> None -> _ctx self <> None) ->
  (of_Z 0 < minFreq (options self))%js = true ->
  (minFreq (options self) < maxFreq (options self))%js = true ->
  isFinite (sampleRate input) = true ->
  (forall b, _buffer self = Some b -> Z.of_nat (length b) <= 2 ^ 53 - 1) ->
  snd (tick self input u) = Normal tt.
Proof.
  intros Hctx Hmin Hlt Hsr Hlen. unfold tick.
  destruct (_analyser self) as [an|] eqn:Ea; [|reflexivity].
  destruct (_buffer self) as [b|] eqn:Eb; [|reflexivity].
  destruct (_ctx self) as [c|] eqn:Ec; [|exfalso; apply Hctx; congruence].
  assert (Hr : exists r, rawEstimate self (fill b (samples input))
                           (sampleRate input) = Normal r).
  { unfold rawEstimate.
    destruct (Pitch.computeRMS _ >= minRms (options self))%js; [|eauto].
    apply detectPitchYIN_returns; try assumption.
    rewrite fill_length. apply Hlen. reflexivity. }
  destruct Hr as [r ->]. unfold _emit. rewrite emit_all_fold. reflexivity.
Qed.

Lemma tick_completes_normally_witness :
  snd (tick (Samples.pipeline_of_size 512 None []) Samples.alternating_at_0 tt)
  = Normal tt.
Proof.
  apply (tick_completes_normally unit
           (Samples.pipeline_of_size 512 None []) Samples.alternating_at_0 tt).
  - discriminate.
  - reflexivity.
  - reflexivity.
  - reflexivity.
  - intros b Hb. injection Hb as <-. vm_compute. discriminate.
Defined.

(** The final guards give a frequency inside a range of positive bounds. *)
Lemma finish_in_range sampleRate betterTau minF maxF f :
  (of_Z 0 < minF)%js = true -> (minF < maxF)%js = true ->
  Pitch.finish sampleRate betterTau minF maxF = Some f ->
  isFinite f = true /\ (f > of_Z 0)%js = true /\
  (minF <= f)%js = true /\ (f <= maxF)%js = true.
Proof.
  intros Hmin Hlt Hf.
  destruct (finish_some _ _ _ _ _ Hf) as (_ & Hfin & Hpos & Hlo & Hhi).
  pose proof (isFinite_not_nan _ Hfin) as Hnan.
  destruct (lt_not_nan _ _ Hmin) as [H0 Hminn].
  destruct (lt_not_nan _ _ Hlt) as [_ Hmaxn].
  change (lt maxF f = false) in Hhi.
  rewrite (le_negb_lt f (of_Z 0) Hnan H0) in Hpos.
  apply negb_false_iff in Hpos.
  rewrite (le_negb_lt _ _ Hminn Hnan), (le_negb_lt _ _ Hnan Hmaxn), Hlo, Hhi.
  auto.
Qed.

(** X19: the value a cycle emits is inside the configured range whenever no
    smoothing is mixed in, that is on the first estimate after silence and
    on every estimate when [smoothing <= 0]: it is finite, positive and
    within [minFreq, maxFreq]. *)
Theorem unsmoothed_estimate_in_range (U : Type) (self : MicPitch U) input u f :
  (of_Z 0 < minFreq (options self))%js = true ->
  (minFreq (options self) < maxFreq (options self))%js = true ->
  _emaFreq self = None \/ (smoothing (options self) <= of_Z 0)%js = true ->
  snd (tick self input u) = Normal tt ->
  _analyser self <> None -> _buffer self <> None ->
  _emaFreq (fst (fst (tick self input u))) = Some f ->
  isFinite f = true /\ (f > of_Z 0)%js = true /\
  (minFreq (options self) <= f)%js = true /\
  (f <= maxFreq (options self))%js = true.
Proof.
  intros Hmin Hlt Hraw Hok Ha Hb. unfold tick in *.
  destruct (_analyser self) as [an|]; [|congruence].
  destruct (_buffer self) as [b|]; [|congruence].
  destruct (_ctx self) as [c|]; [|discriminate].
  destruct (rawEstimate self (fill b (samples input)) (sampleRate input))
    as [freq|e] eqn:Hr; [|discriminate].
  unfold _emit. rewrite emit_all_fold. cbn [fst snd record _emaFreq].
  intros Hf.
  assert (Hfreq : freq = Some f).
  { destruct freq as [x|]; [|discriminate].
    destruct Hraw as [Hn | Hoff]; [rewrite Hn in Hf; exact Hf|].
    unfold smooth in Hf. destruct (_emaFreq self); [|exact Hf].
    unfold gt in Hf.
    change (SFltb (of_Z 0) (smoothing (options self)))
      with (lt (of_Z 0) (smoothing (options self))) in Hf.
    rewrite (le_not_gt _ _ Hoff) in Hf. exact Hf. }
  subst freq. unfold rawEstimate in Hr.
  destruct (Pitch.computeRMS _ >= minRms (options self))%js; [|discriminate].
  destruct (detectPitchYIN_some _ _ _ _ Hr) as [betterTau Hfin].
  exact (finish_in_range _ _ _ _ _ Hmin Hlt Hfin).
Qed.

Lemma unsmoothed_estimate_in_range_witness :
  let f := S754_finite false 4628374963828463 (-43) in
  _emaFreq (fst (fst (tick (Samples.pipeline_of_size 512 None [])
                         Samples.alternating_at_0 tt))) = Some f /\
  isFinite f = true /\ (f > of_Z 0)%js = true /\
  (of_Z 50 <= f)%js = true /\ (f <= of_Z 2000)%js = true.
Proof.
  intros f.
  assert (E : _emaFreq (fst (fst (tick (Samples.pipeline_of_size 512 None [])
                                    Samples.alternating_at_0 tt))) = Some f)
    by (vm_compute; reflexivity).
  split; [exact E|].
  apply (unsmoothed_estimate_in_range unit
           (Samples.pipeline_of_size 512 None []) Samples.alternating_at_0
           tt f eq_refl eq_refl (or_introl eq_refl)).
  - vm_compute. reflexivity.
  - discriminate.
  - discriminate.
  - exact E.
Defined.

End CycleFacts.

Section HistoryFacts.
Import Js Mic.

Lemma chronological_snoc_intro h x :
  Spec.chronological h = true -> isNaN (t x) = false ->
  Forall (fun e => (t e <= t x)%js = true) h ->
  Spec.chronological (h ++ [x]) = true.
Proof.
  induction h as [|a rest IH]; intros Hh Hx Hle.
  - simpl. rewrite Hx. reflexivity.
  - inversion Hle as [|? ? Hax Hrest]; subst.
    pose proof (chronological_tail _ _ Hh) as Hr.
    destruct (chronological_head _ _ Hh) as [Ha Hall].
    change ((a :: rest) ++ [x]) with (a :: (rest ++ [x])).
    cbn [Spec.chronological]. rewrite Ha, (IH Hr Hx Hrest). simpl.
    destruct rest as [|b r]; simpl.
    + rewrite Hax. reflexivity.
    + inversion Hall; subst. rewrite H1. reflexivity.
Qed.

Lemma chronological_trim cutoff h :
  Spec.chronological h = true -> Spec.chronological (trim cutoff h) = true.
Proof.
  induction h as [|a rest IH]; intros Hh; [reflexivity|].
  simpl trim. destruct (t a < cutoff)%js; [|exact Hh].
  apply IH. eapply chronological_tail. exact Hh.
Qed.

Lemma trim_incl cutoff h e : In e (trim cutoff h) -> In e h.
Proof.
  induction h as [|a rest IH]; simpl; [auto|].
  destruct (t a < cutoff)%js; [|auto]. intros H. right. apply IH, H.
Qed.

(** X20: the history stays chronological.  If the history is chronological
    and no entry is later than the time of the cycle (a number), then after
    [tick], whatever its outcome, the history is chronological and still
    has no entry later than that time. *)
Theorem tick_keeps_history_chronological (U : Type) (self : MicPitch U)
    input u :
  Spec.chronological (_history self) = true ->
  isNaN (now input) = false ->
  Forall (fun e => (t e <= now input)%js = true) (_history self) ->
  Spec.chronological (_history (fst (fst (tick self input u)))) = true /\
  Forall (fun e => (t e <= now input)%js = true)
    (_history (fst (fst (tick self input u)))).
Proof.
  intros Hh Hn Hle. unfold tick.
  destruct (_analyser self); [|auto].
  destruct (_buffer self); [|auto].
  destruct (_ctx self); [|auto].
  destruct (rawEstimate self _ _) as [freq|e]; [|auto].
  unfold _emit. rewrite emit_all_fold. cbn [fst snd record _history].
  split.
  - apply chronological_trim. apply chronological_snoc_intro; assumption.
  - apply Forall_forall. intros e He. apply trim_incl in He.
    apply in_app_or in He. destruct He as [He | [<- | []]].
    + revert e He. apply Forall_forall. exact Hle.
    + apply le_refl. exact Hn.
Qed.

Lemma tick_keeps_history_chronological_witness :
  Spec.chronological
    (_history (fst (fst (tick (Samples.pipeline (Some (of_Z 440))
                                 Samples.history_440)
                           Samples.silence_at_1600 tt)))) = true.
Proof.
  refine (proj1 (tick_keeps_history_chronological unit
                   (Samples.pipeline (Some (of_Z 440)) Samples.history_440)
                   Samples.silence_at_1600 tt eq_refl eq_refl _)).
  apply Forall_forall. intros e He.
  vm_compute in He.
  repeat (destruct He as [<- | He]; [reflexivity|]). destruct He.
Defined.

(** The average query on any chronological history, for a cutoff that is a
    number. *)
Lemma getAverageFrequency_scan (U : Type) (self : MicPitch U) seconds nowT :
  Spec.chronological (_history self) = true ->
  isNaN (nowT - nullish seconds (averageSeconds (options self)) * of_Z 1000)%js
  = false ->
  getAverageFrequency self seconds nowT
  = Spec.average (_history self) nowT
      (nullish seconds (averageSeconds (options self))).
Proof.
  intros Hh Hc. unfold getAverageFrequency, Spec.average, Spec.mean.
  rewrite (scan_qualifying _ Hc _ Hh).
  rewrite <- (length_rev (Spec.qualifying _ _)).
  generalize (rev (Spec.qualifying
                     (nowT - nullish seconds (averageSeconds (options self))
                             * of_Z 1000)%js (_history self))).
  intros q. destruct q; reflexivity.
Qed.

(** X21: eviction is invisible to the average.  After a cycle, an average
    query whose cutoff is not before the eviction cutoff of that cycle
    returns what it would return on the history with nothing evicted. *)
Theorem eviction_keeps_average (U : Type) (self : MicPitch U) buffer freq
    nowT seconds nowQ :
  Spec.chronological
    (_history self
     ++ [mkItem nowT (_emaFreq (record self buffer freq nowT))]) = true ->
  (trimCutoff self nowT
   <= nowQ - nullish seconds (averageSeconds (options self)) * of_Z 1000)%js
  = true ->
  getAverageFrequency (record self buffer freq nowT) seconds nowQ
  = Spec.average
      (_history self
       ++ [mkItem nowT (_emaFreq (record self buffer freq nowT))])
      nowQ (nullish seconds (averageSeconds (options self))).
Proof.
  intros Hh Hle.
  destruct (le_not_nan _ _ Hle) as [_ Hc].
  rewrite getAverageFrequency_scan;
    [|cbn [record _history]; apply chronological_trim; exact Hh
     |exact Hc].
  cbn [record _history _emaFreq options] in *.
  set (pushed := _history self
                 ++ [mkItem nowT (smooth (_emaFreq self) freq
                                    (smoothing (options self)))]) in *.
  destruct (trim_split (trimCutoff self nowT) pushed) as (removed & E & Hold).
  unfold Spec.average. rewrite E at 2. rewrite qualifying_app.
  rewrite (qualifying_all_older _ removed); [reflexivity|].
  eapply Forall_impl; [|exact Hold].
  intros e He. simpl in He. eapply lt_le_trans; eassumption.
Qed.

Lemma eviction_keeps_average_witness :
  getAverageFrequency
    (record (Samples.pipeline (Some (of_Z 440)) Samples.history_440)
       [] None (of_Z 1600))
    None (of_Z 1600)
  = Spec.average (Samples.history_440 ++ [mkItem (of_Z 1600) None])
      (of_Z 1600) (of_Z 1).
Proof.
  exact (eviction_keeps_average unit
           (Samples.pipeline (Some (of_Z 440)) Samples.history_440)
           [] None (of_Z 1600) None (of_Z 1600) eq_refl eq_refl).
Defined.

(** *** The average is a number *)

Lemma add_finite_not_nan (s v : number) :
  isNaN s = false -> isFinite v = true -> isNaN (s + v)%js = false.
Proof.
  destruct s as [ss|ss| |ss ms es]; try discriminate;
    destruct v as [sv|sv| |sv mv ev]; try discriminate; intros _ _;
    try reflexivity.
  - destruct ss, sv; reflexivity.
  - apply binary_normalize_not_nan.
Qed.

Lemma scan_sum_not_nan cutoff : forall items sum count,
  isNaN sum = false -> isNaN (fst (scan cutoff items sum count)) = false.
Proof.
  induction items as [|item rest IH]; intros sum count Hs; simpl; [exact Hs|].
  destruct (t item < cutoff)%js; [exact Hs|].
  destruct (f item) as [v|]; [|apply IH; exact Hs].
  destruct (isFinite v) eqn:Hv; [|apply IH; exact Hs].
  apply IH. apply add_finite_not_nan; assumption.
Qed.

Lemma scan_count_le cutoff : forall items sum count,
  (snd (scan cutoff items sum count) <= count + length items)%nat.
Proof.
  induction items as [|item rest IH]; intros sum count; simpl; [lia|].
  destruct (t item < cutoff)%js; [simpl; lia|].
  destruct (f item) as [v|]; [destruct (isFinite v)|];
    match goal with
    | |- context [scan cutoff rest ?s ?c] => specialize (IH s c); lia
    end.
Qed.

Lemma div_by_positive_not_nan (s : number) m e :
  isNaN s = false -> isNaN (s / S754_finite false m e)%js = false.
Proof.
  destruct s as [ss|ss| |ss ms es]; try discriminate; intros _;
    try reflexivity.
  unfold div, SFdiv.
  pose proof (div_core_nonneg prec emax ms es m e) as H.
  destruct (SFdiv_core_binary prec emax (Zpos ms) es (Zpos m) e)
    as [[mz ez] lz].
  apply binary_round_aux_not_nan. exact H.
Qed.

(** X22: the average is absent or a number: [getAverageFrequency] never
    returns NaN, and it returns the absent value on an empty history. *)
Theorem getAverageFrequency_never_NaN (U : Type) (self : MicPitch U)
    seconds nowT v :
  Z.of_nat (length (_history self)) < 2 ^ 53 ->
  getAverageFrequency self seconds nowT = Some v ->
  isNaN v = false /\ _history self <> [].
Proof.
  intros Hlen. unfold getAverageFrequency.
  pose proof (scan_sum_not_nan
                (nowT - nullish seconds (averageSeconds (options self))
                        * of_Z 1000)%js
                (rev (_history self)) (of_Z 0) 0%nat eq_refl) as Hsum.
  pose proof (scan_count_le
                (nowT - nullish seconds (averageSeconds (options self))
                        * of_Z 1000)%js
                (rev (_history self)) (of_Z 0) 0%nat) as Hcount.
  rewrite length_rev in Hcount.
  destruct (scan _ (rev (_history self)) (of_Z 0) 0%nat) as [sum count].
  cbn [fst snd] in Hsum, Hcount.
  destruct count as [|n]; [discriminate|].
  intros H. injection H as <-. split.
  - destruct (of_nat_positive (S n)) as (m & e & ->); [lia | lia |].
    apply div_by_positive_not_nan. exact Hsum.
  - intros E. rewrite E in Hcount. simpl in Hcount. lia.
Qed.

Lemma getAverageFrequency_never_NaN_witness :
  getAverageFrequency (Samples.pipeline None Samples.history_alternating)
    None (of_Z 900) = Some (of_Z 440) /\
  isNaN (of_Z 440) = false.
Proof.
  assert (E : getAverageFrequency
                (Samples.pipeline None Samples.history_alternating)
                None (of_Z 900) = Some (of_Z 440)) by (vm_compute; reflexivity).
  split; [exact E|].
  refine (proj1 (getAverageFrequency_never_NaN unit
                   (Samples.pipeline None Samples.history_alternating)
                   None (of_Z 900) (of_Z 440) _ E)).
  vm_compute. reflexivity.
Defined.

End HistoryFacts.

Section TimerFacts.
Import Js Mic.

(** X23: one timer at most.  In a consistent state whose only installed
    interval timer is the one the instance holds (none if it holds none),
    this is still so after any enabled action: [start] installs a timer
    only on a stopped instance and [stop] clears the one installed. *)
Theorem one_timer_at_most (U : Type) (a : action U) w (self : MicPitch U) u :
  consistent self ->
  activeTimers (effects w)
  = match _timer self with Some timer => [timer] | None => [] end ->
  enabled a self = true ->
  activeTimers (effects (fst (fst (exec a (w, self, u)))))
  = match _timer (snd (fst (exec a (w, self, u)))) with
    | Some timer => [timer]
    | None => []
    end.
Proof.
  intros (I1 & I2 & _) Hact Hen.
  destruct a as [| |input|cb|cb|d|audio grants]; cbn [exec].
  - (* start *)
    destruct (_running self) eqn:Hrun.
    + unfold start. rewrite Hrun. exact Hact.
    + destruct (I1 eq_refl) as (_ & _ & Ht). rewrite Ht in Hact.
      destruct (start_cases U self w Hrun)
        as [(_ & ->) | [(_ & _ & ->) | [(_ & _ & _ & ->)
           | (_ & _ & _ & w' & -> & _ & _ & _ & Heff)]]]; cbn [fst snd].
      * rewrite Ht. exact Hact.
      * cbn. rewrite Ht. exact Hact.
      * cbn. rewrite Ht. exact Hact.
      * rewrite Heff. cbn [_timer].
        destruct (_stream self), (_source self); cbn; rewrite Hact;
          reflexivity.
  - (* stop *)
    unfold stop. destruct (_running self) eqn:Hrun; cbn [negb fst snd];
      [|exact Hact].
    destruct (I2 eq_refl) as (c & an & tm & b & Ec & _ & Et & _).
    rewrite Et in Hact |- *. rewrite Ec.
    destruct (_source self), (_stream self); cbn; rewrite Hact; cbn;
      (destruct (Nat.eq_dec tm tm); [reflexivity | contradiction]).
  - (* tick *)
    unfold tick.
    destruct (_analyser self); [|exact Hact].
    destruct (_buffer self); [|exact Hact].
    destruct (_ctx self); [|exact Hact].
    destruct (rawEstimate self _ _); [|exact Hact].
    unfold _emit. rewrite emit_all_fold. exact Hact.
  - (* onFrequency *)
    cbn [fst snd]. unfold onFrequency.
    destruct (has_listener cb (_listeners self)); exact Hact.
  - exact Hact.
  - (* setDevice *)
    unfold setDevice. cbn [_running].
    destruct (_running self); [|exact Hact].
    unfold _replaceStream. cbn [_deviceId].
    destruct (grantsMedia w _); cbn [negb]; [|exact Hact].
    cbn [_source _stream _ctx _analyser fresh perform].
    destruct (_source self), (_stream self), (_ctx self), (_analyser self);
      cbn; exact Hact.
  - exact Hact.
Qed.

Lemma one_timer_at_most_witness :
  activeTimers
    (effects (fst (fst (exec Start (Samples.browser, Samples.idle, tt)))))
  = [4%nat] /\
  activeTimers
    (effects (fst (fst (exec Stop
                          (exec Start (Samples.browser, Samples.idle, tt))))))
  = [].
Proof.
  split.
  - refine (one_timer_at_most unit Start Samples.browser Samples.idle tt
              _ eq_refl eq_refl).
    apply consistent_stopped; try reflexivity. constructor.
  - refine (one_timer_at_most unit Stop
              (fst (fst (exec Start (Samples.browser, Samples.idle, tt))))
              (snd (fst (exec Start (Samples.browser, Samples.idle, tt))))
              tt _ eq_refl eq_refl).
    split; [discriminate|]. split; [|constructor].
    intros _. exists 0%nat, 1%nat, 4%nat, (repeat (S754_zero false) 2048).
    repeat split.
Defined.

End TimerFacts.

Section EdgeInputs.
Import Js Pitch.

Lemma sum_of_squares_NaN (buffer : list number) : forall sum,
  isNaN sum = true \/ Exists (fun v => isNaN v = true) buffer ->
  isNaN (fold_left (fun sum v => (sum + v * v)%js) buffer sum) = true.
Proof.
  induction buffer as [|v rest IH]; intros sum H; simpl.
  - destruct H as [H | H]; [exact H | inversion H].
  - apply IH. destruct H as [H | H].
    + left. destruct sum; try discriminate. reflexivity.
    + inversion H as [? ? Hv | ? ? Hrest]; subst; [left | right; exact Hrest].
      destruct v; try discriminate. destruct sum; reflexivity.
Qed.

Lemma floor_nonpositive (x y : number) :
  isFinite x = true -> (x <= of_Z 0)%js = true -> (of_Z 0 < y)%js = true ->
  Math_floor (x / y)%js = IInf true \/
  exists z, Math_floor (x / y)%js = IInt z /\ z <= 0.
Proof.
  intros Hx Hneg Hy.
  pose proof (div_not_nan x y Hx Hy) as Hn.
  destruct y as [sy|[|]| |[|] my ey]; try discriminate;
    destruct x as [sx|sx| |[|] mx ex]; try discriminate;
    try (right; exists 0; split; [reflexivity | lia]).
  unfold div, SFdiv in *.
  destruct (SFdiv_core_binary prec emax (Zpos mx) ex (Zpos my) ey)
    as [[mz ez] lz].
  pose proof (binary_round_aux_sign prec emax (xorb true false) mz ez lz) as Hs.
  destruct (binary_round_aux prec emax (xorb true false) mz ez lz)
    as [s|s| |s m e]; try discriminate.
  - right. exists 0. split; [reflexivity | lia].
  - subst s. left. reflexivity.
  - subst s. right. eexists. split; [reflexivity|].
    cbn [xorb cond_Zopp Z.opp].
    pose proof (Z.shiftl_nonneg (Zneg m) e). lia.
Qed.

(** X24: inputs that are no signal are answered with the absent value, not
    with an error: a sample rate that is NaN, and a finite sample rate that
    is zero or negative (for positive frequency bounds), make
    detectPitchYIN return null for every buffer. *)
Theorem detectPitchYIN_absent_for_bad_rate buffer sampleRate options :
  isNaN sampleRate = true \/
  (isFinite sampleRate = true /\ (sampleRate <= of_Z 0)%js = true /\
   (of_Z 0 < minFreqOf options)%js = true /\
   (of_Z 0 < maxFreqOf options)%js = true) ->
  detectPitchYIN buffer sampleRate options = Normal None.
Proof.
  intros [Hn | (Hfin & Hneg & Hmin & Hmax)]; unfold detectPitchYIN.
  - destruct (Z.of_nat (length buffer) <? 512); [reflexivity|].
    destruct sampleRate; try discriminate. reflexivity.
  - destruct (Z.of_nat (length buffer) <? 512) eqn:Hb; [reflexivity|].
    apply Z.ltb_ge in Hb. unfold tauMinOf, tauMaxOf.
    destruct (floor_nonpositive _ _ Hfin Hneg Hmax) as [-> | (z1 & -> & H1)];
      destruct (floor_nonpositive _ _ Hfin Hneg Hmin) as [-> | (z2 & -> & H2)];
      cbn [Math_max_i Math_min_i ige icompare]; try reflexivity;
      match goal with
      | |- context [?a ?= ?b] =>
          destruct (Z.compare_spec a b); try reflexivity; lia
      end.
Qed.

Lemma detectPitchYIN_absent_for_bad_rate_witness :
  detectPitchYIN Samples.alternating NaN Samples.no_yin_options = Normal None /\
  detectPitchYIN Samples.alternating (of_Z 0) Samples.no_yin_options
  = Normal None /\
  detectPitchYIN Samples.alternating (of_Z (-44100)) Samples.no_yin_options
  = Normal None.
Proof.
  split; [|split].
  - apply detectPitchYIN_absent_for_bad_rate. left. reflexivity.
  - apply detectPitchYIN_absent_for_bad_rate. right. repeat split.
  - apply detectPitchYIN_absent_for_bad_rate. right. repeat split.
Defined.

End EdgeInputs.

Section EdgeCycles.
Import Js Mic.

(** X25: a block that holds a NaN sample is treated as silence: its RMS is
    NaN, the gate stays closed and the cycle clears the smoothed value. *)
Theorem tick_on_NaN_sample (U : Type) (self : MicPitch U) input u an b c :
  _analyser self = Some an -> _buffer self = Some b -> _ctx self = Some c ->
  Exists (fun v => isNaN v = true) (fill b (samples input)) ->
  isNaN (Pitch.computeRMS (fill b (samples input))) = true /\
  snd (tick self input u) = Normal tt /\
  _emaFreq (fst (fst (tick self input u))) = None.
Proof.
  intros Ha Hb Hc Hnan.
  assert (Hrms : isNaN (Pitch.computeRMS (fill b (samples input))) = true).
  { unfold Pitch.computeRMS.
    pose proof (sum_of_squares_NaN _ (of_Z 0) (or_intror Hnan)) as Hs.
    destruct (fold_left _ _ _); try discriminate. reflexivity. }
  split; [exact Hrms|].
  unfold tick. rewrite Ha, Hb, Hc. unfold rawEstimate.
  destruct (Pitch.computeRMS (fill b (samples input))); try discriminate.
  assert (Hg : (S754_nan >= minRms (options self))%js = false)
    by (unfold ge, SFleb; destruct (minRms (options self)); reflexivity).
  rewrite Hg. unfold _emit. rewrite emit_all_fold. split; reflexivity.
Qed.

Lemma tick_on_NaN_sample_witness :
  _emaFreq
    (fst (fst (tick (Samples.pipeline_of_size 512 (Some (of_Z 440)) [])
                 (mkTickInput (NaN :: Samples.alternating) (of_Z 1000)
                    (of_Z 0))
                 tt))) = None.
Proof.
  refine (proj2 (proj2 (tick_on_NaN_sample unit
            (Samples.pipeline_of_size 512 (Some (of_Z 440)) [])
            (mkTickInput (NaN :: Samples.alternating) (of_Z 1000) (of_Z 0))
            tt 1%nat (repeat (S754_zero false) 512) 0%nat
            eq_refl eq_refl eq_refl _))).
  left. reflexivity.
Defined.

(** X26: a restart begins empty.  [stop] followed by a successful [start]
    leaves a running instance with no smoothed value and an empty history,
    on a new context, with the options and listeners it had. *)
Theorem restart_begins_empty (U : Type) (self : MicPitch U) w w2 s2 :
  _running self = true ->
  start (snd (stop self w)) (fst (stop self w)) = (w2, s2, Normal tt) ->
  pipelineState s2 = (None, [], true, options self) /\
  _listeners s2 = _listeners self /\
  _ctx s2 = Some (nextHandle w) /\
  _timer s2 = Some (S (S (S (S (nextHandle w))))).
Proof.
  intros Hrun Hstart.
  assert (Hs : _running (snd (stop self w)) = false)
    by (unfold stop; rewrite Hrun; reflexivity).
  assert (Hh : nextHandle (fst (stop self w)) = nextHandle w).
  { unfold stop. rewrite Hrun. cbn [negb fst].
    destruct (_timer self), (_source self), (_stream self), (_ctx self);
      reflexivity. }
  destruct (start_cases U _ (fst (stop self w)) Hs)
    as [(_ & E) | [(_ & _ & E) | [(_ & _ & _ & E)
       | (_ & _ & _ & w' & E & _)]]];
    rewrite E in Hstart; try discriminate.
  injection Hstart as <- <-. rewrite Hh.
  unfold stop. rewrite Hrun. cbn. auto.
Qed.

Lemma restart_begins_empty_witness :
  pipelineState
    (snd (fst (start
                 (snd (stop (Samples.pipeline (Some (of_Z 440))
                               Samples.history_440) Samples.browser))
                 (fst (stop (Samples.pipeline (Some (of_Z 440))
                               Samples.history_440) Samples.browser)))))
  = (None, [], true, spread no_options).
Proof.
  refine (proj1 (restart_begins_empty unit
            (Samples.pipeline (Some (of_Z 440)) Samples.history_440)
            Samples.browser _ _ eq_refl _)).
  vm_compute. reflexivity.
Defined.

End EdgeCycles.
